(** * drone-kaniko, ECR front end: cmd/kaniko-ecr/main.go

    A shallow embedding of the decision layer of the plugin ([run],
    [setupECRAuth], [createRepository], [uploadLifeCyclePolicy],
    [uploadRepositoryPolicy], [isRegistryPublic]) together with the facts
    the specification states about it.

    Go strings are byte sequences and are modelled as [string].  The
    process environment and the file system are finite maps.  Everything
    the program asks of the outside (os.Setenv, ioutil.WriteFile,
    ioutil.ReadFile, the AWS SDK, the kaniko builder) is recorded, in
    order, in a trace of events; the answers of the outside are given by
    a record of oracles the development is parametric in. *)

From Stdlib Require Import String Ascii List ZArith Bool Lia.
From stdpp Require Import base option strings list gmap fin_maps.

Import ListNotations.
Local Open Scope string_scope.
Local Open Scope list_scope.

(** ** Strings and formatting *)

Module Strings.

(** strings.HasPrefix(s, prefix):
    [len(s) >= len(prefix) && s[:len(prefix)] == prefix]. *)
Definition HasPrefix (s prefix : string) : bool :=
  (String.length prefix <=? String.length s)%nat
  && String.eqb (String.substring 0 (String.length prefix) s) prefix.

End Strings.

Module Fmt.

(** The double quote, which the format strings of main.go contain. *)
Definition dq : string := String (ascii_of_nat 34) EmptyString.

(** fmt.Sprintf restricted to what main.go uses: the verbs [%s] and
    [%v], each applied to an operand that is already a string (an error
    operand is passed as its Error() text).  A verb with no operand left
    prints Go's [%!s(MISSING)] / [%!v(MISSING)]; every call site of
    main.go supplies exactly as many operands as verbs. *)
Fixpoint Sprintf (format : string) (a : list string) : string :=
  match format with
  | EmptyString => EmptyString
  | String "%"%char (String "s"%char rest) =>
      match a with
      | x :: a' => x +:+ Sprintf rest a'
      | [] => "%!s(MISSING)" +:+ Sprintf rest []
      end
  | String "%"%char (String "v"%char rest) =>
      match a with
      | x :: a' => x +:+ Sprintf rest a'
      | [] => "%!v(MISSING)" +:+ Sprintf rest []
      end
  | String ch rest => String ch (Sprintf rest a)
  end.

End Fmt.

(** ** Constants of main.go *)

Definition accessKeyEnv : string := "AWS_ACCESS_KEY_ID".
Definition secretKeyEnv : string := "AWS_SECRET_ACCESS_KEY".
Definition dockerConfigPath : string := "/kaniko/.docker/config.json".
Definition ecrPublicDomain : string := "public.ecr.aws".
Definition defaultDigestFile : string := "/kaniko/digest-file".

(** func isRegistryPublic(registry string) bool *)
Definition isRegistryPublic (registry : string) : bool :=
  Strings.HasPrefix registry ecrPublicDomain.

(** ** Go error values *)

(** The error values the program can meet.  [APIError] is a value that
    implements smithy.APIError (it carries an error code); [ExitCoder] is
    a value with an ExitCode method (cli.ExitCoder: cli.NewExitError,
    *exec.ExitError of a command that failed), whose Error() text is
    [msg]; [ErrorString] is any error that is neither and has no Unwrap
    chain (fmt.Errorf, a transport or credential failure of the
    SDK); [Wrapped] is an error with an Unwrap chain
    (errors.Wrap, and the SDK's own OperationError wrappers), which has
    no ExitCode method of its own. *)
Inductive goerror : Type :=
| ErrorString (msg : string)
| APIError (code message : string)
| ExitCoder (code : Z) (msg : string)
| Wrapped (message : string) (cause : goerror).

(** A value of Go's interface type [error]; [None] is nil. *)
Definition error : Type := option goerror.

(** err.Error() *)
Fixpoint Error (e : goerror) : string :=
  match e with
  | ErrorString msg => msg
  | APIError code message => "api error " +:+ code +:+ ": " +:+ message
  | ExitCoder _ msg => msg
  | Wrapped message cause => message +:+ ": " +:+ Error cause
  end.

Module Errors.

(** errors.As(err, &apiError) for a target of type smithy.APIError: the
    first error of the Unwrap chain that implements the interface, if
    there is one.  The result is its ErrorCode(). *)
Fixpoint AsAPIError (e : goerror) : option string :=
  match e with
  | ErrorString _ => None
  | APIError code _ => Some code
  | ExitCoder _ _ => None
  | Wrapped _ cause => AsAPIError cause
  end.

Definition As (err : error) : option string :=
  match err with
  | None => None
  | Some e => AsAPIError e
  end.

(** errors.Wrap(err, message); nil stays nil. *)
Definition Wrap (err : error) (message : string) : error :=
  match err with
  | None => None
  | Some e => Some (Wrapped message e)
  end.

End Errors.

(** fmt.Errorf with a format that has no verb. *)
Definition fmt_Errorf (msg : string) : error := Some (ErrorString msg).

(** ** The builder's input (package kaniko, consumed as a black box)

    The declarations of the packages kaniko and artifact are not part of
    main.go.  The records below have the fields main.go fills in, under
    the names it gives them; of the registry types only the constant it
    names is needed. *)

Module artifact.
Inductive RegistryTypeEnum : Type := ECR.
End artifact.

Module kaniko.

Record Build : Type := mkBuild {
  Dockerfile : string;
  Context : string;
  Tags : list string;
  Args : list string;
  Target : string;
  Repo : string;
  Labels : list string;
  SnapshotMode : string;
  EnableCache : bool;
  CacheRepo : string;
  CacheTTL : Z;
  DigestFile : string;
  NoPush : bool;
  Verbosity : string
}.

Module Art.
Record Artifact : Type := mkArtifact {
  Tags : list string;
  Repo : string;
  Registry : string;
  ArtifactFile : string;
  RegistryType : artifact.RegistryTypeEnum
}.
End Art.

Record Plugin : Type := mkPlugin {
  build : Build;
  artifact : Art.Artifact
}.

End kaniko.

(** ** The parsed command line (cli.Context)

    One field per flag of [main].  The two policy flags are read through
    c.IsSet, so they are optional: [None] is a flag that was not set. *)
Module cli.

Record Context : Type := mkContext {
dockerfile : string;
context : string;
tags : list string;
args : list string;
target : string;
repo : string;
create_repository : bool;
region : string;
custom_labels : list string;
registry : string;
access_key : string;
secret_key : string;
snapshot_mode : string;
lifecycle_policy : option string;
repository_policy : option string;
enable_cache : bool;
cache_repo : string;
cache_ttl : Z;
artifact_file : string;
no_push : bool;
verbosity : string
}.

End cli.

(** ** The outside world *)

(** aws.Config, as far as the program determines it. *)
Record aws_Config : Type := mkConfig { Region : string }.

(** The two API surfaces: a client of package ecr (private registries)
    or of package ecrpublic (public registries). *)
Inductive Client : Type :=
| ecr_Client (cfg : aws_Config)
| ecrpublic_Client (cfg : aws_Config).

Inductive Surface : Type := PrivateAPI | PublicAPI.

Definition surface (svc : Client) : Surface :=
  match svc with
  | ecr_Client _ => PrivateAPI
  | ecrpublic_Client _ => PublicAPI
  end.

(** The requests the program sends, with the fields it fills in. *)
Inductive Request : Type :=
| CreateRepositoryInput (RepositoryName : string)
| PutLifecyclePolicyInput (LifecyclePolicyText RepositoryName : string)
| SetRepositoryPolicyInput (PolicyText RepositoryName : string).

(** What the program asks of the outside, in the order it asks.  A read
    is recorded with what it returned. *)
Inductive Event : Type :=
| EvSetenv (key value : string)
| EvWriteFile (filename data : string) (perm : N)
| EvReadFile (filename : string) (contents : string) (err : error)
| EvLoadDefaultConfig (region : string)
| EvAPI (svc : Client) (input : Request)
| EvExec (p : kaniko.Plugin).

Record World : Type := mkWorld {
  env : gmap string string;
  files : gmap string string;
  trace : list Event
}.

(** The answers of the outside.  Each oracle sees the world at the time
    of the call, so two calls with the same arguments may be answered
    differently.  No oracle can touch the trace.  [ReadFile_err] is the
    error of a read that fails, whatever the reason (no such file, a
    directory, no permission). *)
Record Externals : Type := mkExternals {
  Setenv_err : World -> string -> string -> error;
  WriteFile_err : World -> string -> string -> error;
  ReadFile_err : World -> string -> goerror;
  LoadDefaultConfig_err : World -> string -> error;
  API_err : World -> Client -> Request -> error;
  Exec_result : World -> kaniko.Plugin ->
                gmap string string * gmap string string * error
}.

(** ** Control flow: state passing with early return

    A Go function body is a [Proc R A]: from a world it reaches a new
    world and either has returned a value of type [R] ([inl]) or goes on
    with a value of type [A] ([inr]). *)
Definition Proc (R A : Type) : Type := World -> World * (R + A).

Definition ret {R A} (a : A) : Proc R A := fun w => (w, inr a).

Definition bind {R A B} (m : Proc R A) (k : A -> Proc R B) : Proc R B :=
  fun w =>
    match m w with
    | (w', inl r) => (w', inl r)
    | (w', inr a) => k a w'
    end.

(** [return r] *)
Definition return_ {R A} (r : R) : Proc R A := fun w => (w, inl r).

(** A call of a function of the model. *)
Definition call {R A} (f : World -> World * A) : Proc R A :=
  fun w => let (w', a) := f w in (w', inr a).

(** A function whose body ends in a return. *)
Definition func {R} (body : Proc R R) : World -> World * R :=
  fun w =>
    match body w with
    | (w', inl r) => (w', r)
    | (w', inr r) => (w', r)
    end.

(** [if b { ... }] *)
Definition when {R} (b : bool) (body : Proc R unit) : Proc R unit :=
  if b then body else ret tt.

(** [if err != nil { ... }] *)
Definition if_err {R} (err : error) (body : goerror -> Proc R unit)
  : Proc R unit :=
  match err with
  | Some e => body e
  | None => ret tt
  end.

(** [if c.IsSet(flag) { ... c.String(flag) ... }] *)
Definition if_set {R} (flag : option string) (body : string -> Proc R unit)
  : Proc R unit :=
  match flag with
  | Some v => body v
  | None => ret tt
  end.

Declare Scope proc_scope.
Delimit Scope proc_scope with proc.
Notation "'let*' x := m 'in' k" := (bind m (fun x => k))
  (at level 10, x pattern, m at level 200, k at level 200) : proc_scope.
Notation "m ;; k" := (bind m (fun _ => k))
  (at level 100, right associativity) : proc_scope.
Local Open Scope proc_scope.

Definition log (e : Event) (w : World) : World :=
  {| env := env w; files := files w; trace := trace w ++ [e] |}.

(** How a function ends: it returns an error value (nil on success), or
    the process exits with a status after a message was printed
    (logrus.Fatal: status 1). *)
Inductive Outcome : Type :=
| Returned (err : error)
| Exited (status : Z) (msg : string).

Definition logrus_Fatal {A} (msg : string) : Proc Outcome A :=
  return_ (Exited 1 msg).

Section Program.

Context (X : Externals).

(** *** Primitives *)

(** os.Setenv(key, value): the variable is set unless the call fails. *)
Definition os_Setenv (key value : string) (w : World) : World * error :=
  let w1 := log (EvSetenv key value) w in
  match Setenv_err X w key value with
  | Some e => (w1, Some e)
  | None =>
      ({| env := <[key := value]> (env w1);
          files := files w1; trace := trace w1 |}, None)
  end.

(** ioutil.WriteFile(filename, data, perm): on success the file holds
    exactly [data], whatever it held before.  A write that fails is
    taken to leave the files as they were; nothing below depends on
    it. *)
Definition ioutil_WriteFile (filename data : string) (perm : N) (w : World)
  : World * error :=
  let w1 := log (EvWriteFile filename data perm) w in
  match WriteFile_err X w filename data with
  | Some e => (w1, Some e)
  | None =>
      ({| env := env w1;
          files := <[filename := data]> (files w1); trace := trace w1 |},
       None)
  end.

(** ioutil.ReadFile(filename): [files] holds what can be read, so the
    read returns the bytes [files] has for the name; for any other name
    it fails with the error the outside gives.  Bytes handed back
    together with an error are dropped by both callers and are not
    kept. *)
Definition ioutil_ReadFile (filename : string) (w : World)
  : World * (string * error) :=
  let result :=
    match files w !! filename with
    | Some contents => (contents, None)
    | None => (EmptyString, Some (ReadFile_err X w filename))
    end in
  (log (EvReadFile filename result.1 result.2) w, result).

(** config.LoadDefaultConfig(context.TODO(), config.WithRegion(region)) *)
Definition config_LoadDefaultConfig (region : string) (w : World)
  : World * (aws_Config * error) :=
  let w1 := log (EvLoadDefaultConfig region) w in
  (w1, ({| Region := region |}, LoadDefaultConfig_err X w region)).

(** ecr.NewFromConfig(cfg) and ecrpublic.NewFromConfig(cfg) *)
Definition ecr_NewFromConfig (cfg : aws_Config) : Client := ecr_Client cfg.
Definition ecrpublic_NewFromConfig (cfg : aws_Config) : Client :=
  ecrpublic_Client cfg.

(** svc.CreateRepository, svc.PutLifecyclePolicy, svc.SetRepositoryPolicy:
    the output is dropped by every caller, the error is kept. *)
Definition send (svc : Client) (input : Request) (w : World)
  : World * error :=
  (log (EvAPI svc input) w, API_err X w svc input).

(** plugin.Exec(): the builder; it may change the environment and the
    files at will. *)
Definition plugin_Exec (p : kaniko.Plugin) (w : World) : World * error :=
  let '(env', files', err) := Exec_result X w p in
  ({| env := env'; files := files'; trace := trace w ++ [EvExec p] |}, err).

(** *** The functions of main.go *)

(** The format of the credential descriptor (main.go, line 254). *)
Definition dockerConfigFormat : string :=
  Eval cbv in
    ("{" +:+ Fmt.dq +:+ "credStore" +:+ Fmt.dq +:+ ": "
     +:+ Fmt.dq +:+ "ecr-login" +:+ Fmt.dq +:+ ", "
     +:+ Fmt.dq +:+ "credHelpers" +:+ Fmt.dq +:+ ": {"
     +:+ Fmt.dq +:+ "%s" +:+ Fmt.dq +:+ ": "
     +:+ Fmt.dq +:+ "ecr-login" +:+ Fmt.dq +:+ ", "
     +:+ Fmt.dq +:+ "%s" +:+ Fmt.dq +:+ ": "
     +:+ Fmt.dq +:+ "ecr-login" +:+ Fmt.dq +:+ "}}").

(** func setupECRAuth(accessKey, secretKey, registry string) error *)
Definition setupECRAuth (accessKey secretKey registry : string)
  : World -> World * error :=
  func (
    when (String.eqb registry "")
      (return_ (fmt_Errorf "registry must be specified")) ;;
    when (negb (String.eqb accessKey "") && negb (String.eqb secretKey ""))
      (let* err := call (os_Setenv accessKeyEnv accessKey) in
       if_err err (fun _ =>
         return_ (Errors.Wrap err
                    (Fmt.Sprintf "failed to set %s environment variable"
                                 [accessKeyEnv]))) ;;
       let* err := call (os_Setenv secretKeyEnv secretKey) in
       if_err err (fun _ =>
         return_ (Errors.Wrap err
                    (Fmt.Sprintf "failed to set %s environment variable"
                                 [secretKeyEnv])))) ;;
    let jsonBytes :=
      Fmt.Sprintf dockerConfigFormat [ecrPublicDomain; registry] in
    let* err := call (ioutil_WriteFile dockerConfigPath jsonBytes 420) in
    if_err err (fun _ =>
      return_ (Errors.Wrap err "failed to create docker config file")) ;;
    return_ None).

(** func createRepository(region, repo, registry string) error *)
Definition createRepository (region repo registry : string)
  : World -> World * error :=
  func (
    when (String.eqb registry "")
      (return_ (fmt_Errorf "registry must be specified")) ;;
    when (String.eqb repo "")
      (return_ (fmt_Errorf "repo must be specified")) ;;
    let* (cfg, err) := call (config_LoadDefaultConfig region) in
    if_err err (fun _ =>
      return_ (Errors.Wrap err "failed to load aws config")) ;;
    let* createErr :=
      if isRegistryPublic registry then
        let svc := ecrpublic_NewFromConfig cfg in
        call (send svc (CreateRepositoryInput repo))
      else
        let svc := ecr_NewFromConfig cfg in
        call (send svc (CreateRepositoryInput repo)) in
    match Errors.As createErr with
    | Some code =>
        when (negb (String.eqb code "RepositoryAlreadyExistsException"))
          (return_ (Errors.Wrap createErr "failed to create repository"))
    | None => ret tt
    end ;;
    return_ None).

(** func uploadLifeCyclePolicy(region, repo, lifecyclePolicy string) error *)
Definition uploadLifeCyclePolicy (region repo lifecyclePolicy : string)
  : World -> World * error :=
  func (
    let* (cfg, err) := call (config_LoadDefaultConfig region) in
    if_err err (fun _ =>
      return_ (Errors.Wrap err "failed to load aws config")) ;;
    let svc := ecr_NewFromConfig cfg in
    let input := PutLifecyclePolicyInput lifecyclePolicy repo in
    let* err := call (send svc input) in
    return_ err).

(** func uploadRepositoryPolicy(region, repo, registry, repositoryPolicy
    string) error *)
Definition uploadRepositoryPolicy
  (region repo registry repositoryPolicy : string)
  : World -> World * error :=
  func (
    let* (cfg, err) := call (config_LoadDefaultConfig region) in
    if_err err (fun _ =>
      return_ (Errors.Wrap err "failed to load aws config")) ;;
    let* err :=
      if isRegistryPublic registry then
        let svc := ecrpublic_NewFromConfig cfg in
        let input := SetRepositoryPolicyInput repositoryPolicy repo in
        call (send svc input)
      else
        let svc := ecr_NewFromConfig cfg in
        let input := SetRepositoryPolicyInput repositoryPolicy repo in
        call (send svc input) in
    return_ err).

(** func run(c *cli.Context) error *)
Definition run (c : cli.Context) : World -> World * Outcome :=
  func (
    let repo := cli.repo c in
    let registry := cli.registry c in
    let region := cli.region c in
    let accessKey := cli.access_key c in
    let noPush := cli.no_push c in
    when (negb noPush || negb (String.eqb accessKey ""))
      (let* err := call (setupECRAuth accessKey (cli.secret_key c) registry) in
       if_err err (fun _ => return_ (Returned err))) ;;
    when (negb noPush && cli.create_repository c)
      (let* err := call (createRepository region repo registry) in
       if_err err (fun _ => return_ (Returned err))) ;;
    if_set (cli.lifecycle_policy c) (fun path =>
      let* (contents, err) := call (ioutil_ReadFile path) in
      if_err err (fun e => logrus_Fatal (Error e)) ;;
      let* err := call (uploadLifeCyclePolicy region repo contents) in
      if_err err (fun e =>
        logrus_Fatal
          (Fmt.Sprintf "error uploading ECR lifecycle policy: %v"
                       [Error e]))) ;;
    if_set (cli.repository_policy c) (fun path =>
      let* (contents, err) := call (ioutil_ReadFile path) in
      if_err err (fun e => logrus_Fatal (Error e)) ;;
      let* err := call (uploadRepositoryPolicy region repo registry contents) in
      if_err err (fun e =>
        logrus_Fatal
          (Fmt.Sprintf "error uploading ECR lifecycle policy: %v"
                       [Error e]))) ;;
    let plugin :=
      {| kaniko.build :=
           {| kaniko.Dockerfile := cli.dockerfile c;
              kaniko.Context := cli.context c;
              kaniko.Tags := cli.tags c;
              kaniko.Args := cli.args c;
              kaniko.Target := cli.target c;
              kaniko.Repo :=
                Fmt.Sprintf "%s/%s" [cli.registry c; cli.repo c];
              kaniko.Labels := cli.custom_labels c;
              kaniko.SnapshotMode := cli.snapshot_mode c;
              kaniko.EnableCache := cli.enable_cache c;
              kaniko.CacheRepo :=
                Fmt.Sprintf "%s/%s" [cli.registry c; cli.cache_repo c];
              kaniko.CacheTTL := cli.cache_ttl c;
              kaniko.DigestFile := defaultDigestFile;
              kaniko.NoPush := noPush;
              kaniko.Verbosity := cli.verbosity c |};
         kaniko.artifact :=
           {| kaniko.Art.Tags := cli.tags c;
              kaniko.Art.Repo := cli.repo c;
              kaniko.Art.Registry := cli.registry c;
              kaniko.Art.ArtifactFile := cli.artifact_file c;
              kaniko.Art.RegistryType := artifact.ECR |} |} in
    let* err := call (plugin_Exec plugin) in
    return_ (Returned err)).

End Program.

(** ** Vocabulary of the specification *)

(** The text of a credential descriptor for a list of hosts: the helper
    "ecr-login" as the credential store, and one credHelpers entry per
    host, in order, with the host between double quotes as it is. *)
Definition credHelperEntry (host : string) : string :=
  Fmt.dq +:+ host +:+ Fmt.dq +:+ ": " +:+ Fmt.dq +:+ "ecr-login" +:+ Fmt.dq.

Definition credHelperDescriptor (hosts : list string) : string :=
  "{" +:+ Fmt.dq +:+ "credStore" +:+ Fmt.dq +:+ ": "
  +:+ Fmt.dq +:+ "ecr-login" +:+ Fmt.dq +:+ ", "
  +:+ Fmt.dq +:+ "credHelpers" +:+ Fmt.dq +:+ ": {"
  +:+ String.concat ", " (map credHelperEntry hosts) +:+ "}}".

(** *** The descriptor as JSON

    The specification speaks of the descriptor as a JSON object and of
    the hosts it names.  main.go has no JSON reader: what a reader of
    JSON finds in a text is defined here after the grammar of RFC 8259,
    for the values a descriptor is built of, objects and strings.  A
    text with any other value (a number, an array, true, false, null) or
    with a [\u] escape is not read. *)
Module JSON.

#[warnings="-register-all"]
Inductive value : Type :=
| Str (s : string)
| Obj (members : list (string * value)).

Definition quote : ascii := ascii_of_nat 34.
Definition backslash : ascii := ascii_of_nat 92.

(** ws = *( space / horizontal tab / line feed / carriage return ) *)
Definition is_ws (c : ascii) : bool :=
  let n := N_of_ascii c in
  (n =? 32)%N || (n =? 9)%N || (n =? 10)%N || (n =? 13)%N.

Fixpoint skip_ws (s : string) : string :=
  match s with
  | String c rest => if is_ws c then skip_ws rest else s
  | EmptyString => s
  end.

(** The character a two-character escape stands for. *)
Definition unescape (c : ascii) : option ascii :=
  if Ascii.eqb c quote then Some quote
  else if Ascii.eqb c backslash then Some backslash
  else if Ascii.eqb c "/" then Some "/"%char
  else if Ascii.eqb c "b" then Some (ascii_of_nat 8)
  else if Ascii.eqb c "f" then Some (ascii_of_nat 12)
  else if Ascii.eqb c "n" then Some (ascii_of_nat 10)
  else if Ascii.eqb c "r" then Some (ascii_of_nat 13)
  else if Ascii.eqb c "t" then Some (ascii_of_nat 9)
  else None.

(** The characters of a string, read from behind its opening quote up to
    the closing quote: the string they spell, and the text after the
    closing quote.  A control character ends the reading. *)
Fixpoint chars (s : string) : option (string * string) :=
  match s with
  | EmptyString => None
  | String c rest =>
      if Ascii.eqb c quote then Some (EmptyString, rest)
      else if Ascii.eqb c backslash then
        match rest with
        | String e rest' =>
            d ← unescape e;
            '(str, after) ← chars rest';
            Some (String d str, after)
        | EmptyString => None
        end
      else if (N_of_ascii c <? 32)%N then None
      else
        '(str, after) ← chars rest;
        Some (String c str, after)
  end.

(** value = string / object;
    object = "{" [ member *( "," member ) ] "}";
    member = string ":" value.
    Each returns what it read and the text after it. *)
Fixpoint read_value (fuel : nat) (s : string) : option (value * string) :=
  match fuel with
  | O => None
  | S fuel =>
      match skip_ws s with
      | String c rest =>
          if Ascii.eqb c quote then
            '(str, after) ← chars rest;
            Some (Str str, after)
          else if Ascii.eqb c "{" then
            match skip_ws rest with
            | String c' rest' =>
                if Ascii.eqb c' "}" then Some (Obj [], rest')
                else
                  '(ms, after) ← read_members fuel rest;
                  Some (Obj ms, after)
            | EmptyString => None
            end
          else None
      | EmptyString => None
      end
  end
with read_members (fuel : nat) (s : string)
  : option (list (string * value) * string) :=
  match fuel with
  | O => None
  | S fuel =>
      match skip_ws s with
      | String c rest =>
          if Ascii.eqb c quote then
            '(name, after) ← chars rest;
            match skip_ws after with
            | String c1 rest1 =>
                if Ascii.eqb c1 ":" then
                  '(v, after1) ← read_value fuel rest1;
                  match skip_ws after1 with
                  | String c2 rest2 =>
                      if Ascii.eqb c2 "," then
                        '(ms, after2) ← read_members fuel rest2;
                        Some ((name, v) :: ms, after2)
                      else if Ascii.eqb c2 "}" then
                        Some ([(name, v)], rest2)
                      else None
                  | EmptyString => None
                  end
                else None
            | EmptyString => None
            end
          else None
      | EmptyString => None
      end
  end.

(** A JSON text is one value with white space around it.  Every call
    above takes at least one character, so the length of the text is
    fuel enough. *)
Definition parse (text : string) : option value :=
  '(v, after) ← read_value (S (String.length text)) text;
  match skip_ws after with
  | EmptyString => Some v
  | String _ _ => None
  end.

(** The first member of an object with the given name. *)
Fixpoint lookup (name : string) (members : list (string * value))
  : option value :=
  match members with
  | [] => None
  | (n, v) :: rest => if String.eqb n name then Some v else lookup name rest
  end.

(** A character that stands for itself between the quotes of a JSON
    string whatever the reader: printable ASCII other than the double
    quote and the backslash. *)
Definition plain_char (c : ascii) : bool :=
  let n := N_of_ascii c in
  (32 <=? n)%N && (n <? 127)%N
  && negb (Ascii.eqb c quote) && negb (Ascii.eqb c backslash).

Fixpoint plain (s : string) : bool :=
  match s with
  | EmptyString => true
  | String c rest => plain_char c && plain rest
  end.

(** The string token that spells [s] when [s] is plain, before [rest]. *)
Definition quoted (s rest : string) : string :=
  String quote (s +:+ String quote rest).

End JSON.

(** The hosts a descriptor names a credential helper for: the names of
    the members of its credHelpers object, in the order of the text. *)
Definition credHelperHosts (text : string) : option (list string) :=
  match JSON.parse text with
  | Some (JSON.Obj members) =>
      match JSON.lookup "credHelpers" members with
      | Some (JSON.Obj helpers) => Some (map fst helpers)
      | _ => None
      end
  | _ => None
  end.

(** The API surface the classifier selects for a registry. *)
Definition clientFor (registry : string) (cfg : aws_Config) : Client :=
  if isRegistryPublic registry
  then ecrpublic_Client cfg
  else ecr_Client cfg.

(** The events by which the credential provisioner touches the
    environment or the file system. *)
Definition isAuthEvent (e : Event) : bool :=
  match e with
  | EvSetenv _ _ | EvWriteFile _ _ _ => true
  | _ => false
  end.

(** [Emits G f]: from every world, [f] only appends to the trace, and
    what it appends satisfies [G]. *)
Definition Emits {A} (G : list Event -> Prop) (f : World -> World * A)
  : Prop :=
  forall w, exists evs, trace (f w).1 = trace w ++ evs /\ G evs.

(** [EmitsR G f]: the same, for a [G] that also speaks of the result. *)
Definition EmitsR {A} (G : list Event -> A -> Prop) (f : World -> World * A)
  : Prop :=
  forall w, exists evs, trace (f w).1 = trace w ++ evs /\ G evs (f w).2.

(** Properties of event lists that survive sequential composition. *)
Class Compositional (G : list Event -> Prop) : Prop := {
  comp_nil : G [];
  comp_app : forall evs1 evs2, G evs1 -> G evs2 -> G (evs1 ++ evs2)
}.

(** ** Worked inputs *)

Module Sample.

(** The error of a read of a name that does not exist. *)
Definition noSuchFile (_ : World) (filename : string) : goerror :=
  ErrorString ("open " +:+ filename +:+ ": no such file or directory").

(** An outside that never fails; the builder changes nothing. *)
Definition quiet : Externals :=
  {| Setenv_err := fun _ _ _ => None;
     WriteFile_err := fun _ _ _ => None;
     ReadFile_err := noSuchFile;
     LoadDefaultConfig_err := fun _ _ => None;
     API_err := fun _ _ _ => None;
     Exec_result := fun w _ => (env w, files w, None) |}.

(** The registry answers every request with the given error. *)
Definition answering (e : goerror) : Externals :=
  {| Setenv_err := fun _ _ _ => None;
     WriteFile_err := fun _ _ _ => None;
     ReadFile_err := noSuchFile;
     LoadDefaultConfig_err := fun _ _ => None;
     API_err := fun _ _ _ => Some e;
     Exec_result := fun w _ => (env w, files w, None) |}.

(** The docker configuration directory cannot be written. *)
Definition readOnly : Externals :=
  {| Setenv_err := fun _ _ _ => None;
     WriteFile_err := fun _ _ _ =>
       Some (ErrorString
               "open /kaniko/.docker/config.json: read-only file system");
     ReadFile_err := noSuchFile;
     LoadDefaultConfig_err := fun _ _ => None;
     API_err := fun _ _ _ => None;
     Exec_result := fun w _ => (env w, files w, None) |}.

(** A registry flag with double quotes in it: a, quote, colon, space,
    quote, x, quote, comma, space, quote, b. *)
Definition quotedRegistry : string :=
  Eval cbv in
    ("a" +:+ Fmt.dq +:+ ": " +:+ Fmt.dq +:+ "x" +:+ Fmt.dq +:+ ", "
     +:+ Fmt.dq +:+ "b").

(** Errors as the SDK hands them out: wrapped in an operation error. *)
Definition alreadyExists : goerror :=
  Wrapped "operation error ECR: CreateRepository"
    (APIError "RepositoryAlreadyExistsException"
              "The repository with name 'app' already exists").

Definition accessDenied : goerror :=
  Wrapped "operation error ECR: CreateRepository"
    (APIError "AccessDeniedException" "not authorized").

Definition noCredentials : goerror :=
  Wrapped "operation error ECR: CreateRepository"
    (ErrorString "failed to retrieve credentials").

Definition emptyWorld : World := {| env := ∅; files := ∅; trace := [] |}.

Definition privateRegistry : string :=
  "123.dkr.ecr.us-east-1.amazonaws.com/myrepo".

Definition ctx (registry : string) (noPush create : bool)
           (accessKey secretKey : string)
           (lifecycle repository : option string) : cli.Context :=
  {| cli.dockerfile := "Dockerfile";
     cli.context := ".";
     cli.tags := ["latest"];
     cli.args := [];
     cli.target := "";
     cli.repo := "app";
     cli.create_repository := create;
     cli.region := "us-east-1";
     cli.custom_labels := [];
     cli.registry := registry;
     cli.access_key := accessKey;
     cli.secret_key := secretKey;
     cli.snapshot_mode := "";
     cli.lifecycle_policy := lifecycle;
     cli.repository_policy := repository;
     cli.enable_cache := false;
     cli.cache_repo := "cache";
     cli.cache_ttl := 0;
     cli.artifact_file := "";
     cli.no_push := noPush;
     cli.verbosity := "" |}.

End Sample.

(** ** The entry point

    main reads PLUGIN_ENV_FILE, loads that file into the environment when
    the variable is set, and hands the command line to app.Run, whose
    action is [run].  godotenv.Load and the flag parser of app.Run are
    libraries: what they answer is a parameter. *)
Record Startup : Type := mkStartup {
  Load_result : World -> string -> gmap string string * error;
  Parse_result : World -> goerror + option cli.Context
}.

(** os.Getenv(key): the empty string when the variable is not set. *)
Definition os_Getenv (key : string) (w : World) : string :=
  default EmptyString (env w !! key).

(** godotenv.Load(filename): it may set variables of the environment. *)
Definition godotenv_Load (S : Startup) (filename : string) (w : World)
  : World * error :=
  let '(env', err) := Load_result S w filename in
  ({| env := env'; files := files w; trace := trace w |}, err).

(** The type assertion err.(cli.ExitCoder). *)
Definition isExitCoder (e : goerror) : bool :=
  match e with
  | ExitCoder _ _ => true
  | _ => false
  end.

(** cli.HandleExitCoder(err), which app.Run (urfave/cli, version 1)
    applies to the error of the action before it hands it back: for an
    error that is an exit coder the text of the error is printed and the
    process exits with the code of the error; any other error, and nil,
    passes.  (Its second case, a cli.MultiError, is no error of the
    model.) *)
Definition cli_HandleExitCoder (out : Outcome) : Outcome :=
  match out with
  | Returned (Some (ExitCoder code msg)) => Exited code msg
  | _ => out
  end.

(** app.Run(os.Args): a command line that does not parse is an error, one
    that asks for help or for the version runs no action, and any other
    runs the action on the parsed flags and passes its error through
    cli.HandleExitCoder. *)
Definition app_Run (X : Externals) (S : Startup) (w : World)
  : World * Outcome :=
  match Parse_result S w with
  | inl e => (w, Returned (Some e))
  | inr None => (w, Returned None)
  | inr (Some c) =>
      let (w', out) := run X c w in (w', cli_HandleExitCoder out)
  end.

(** func main(); [Returned None] stands for main coming to its end. *)
Definition main (X : Externals) (S : Startup) : World -> World * Outcome :=
  func (
    let* env := call (fun w => (w, os_Getenv "PLUGIN_ENV_FILE" w)) in
    when (negb (String.eqb env ""))
      (let* err := call (godotenv_Load S env) in
       if_err err (fun e => logrus_Fatal (Error e))) ;;
    let* out := call (app_Run X S) in
    match out with
    | Exited status msg => return_ (Exited status msg)
    | Returned err =>
        if_err err (fun e => logrus_Fatal (Error e)) ;;
        return_ (Returned None)
    end).

(** The invocation of the builder. *)
Definition isExec (e : Event) : bool :=
  match e with
  | EvExec _ => true
  | _ => false
  end.

(** A plugin that carries the flags of [c] one to one. *)
Definition carriesFlags (c : cli.Context) (p : kaniko.Plugin) : Prop :=
  kaniko.Dockerfile (kaniko.build p) = cli.dockerfile c
  /\ kaniko.Context (kaniko.build p) = cli.context c
  /\ kaniko.Tags (kaniko.build p) = cli.tags c
  /\ kaniko.Args (kaniko.build p) = cli.args c
  /\ kaniko.Target (kaniko.build p) = cli.target c
  /\ kaniko.Labels (kaniko.build p) = cli.custom_labels c
  /\ kaniko.SnapshotMode (kaniko.build p) = cli.snapshot_mode c
  /\ kaniko.EnableCache (kaniko.build p) = cli.enable_cache c
  /\ kaniko.CacheTTL (kaniko.build p) = cli.cache_ttl c
  /\ kaniko.NoPush (kaniko.build p) = cli.no_push c
  /\ kaniko.Verbosity (kaniko.build p) = cli.verbosity c
  /\ kaniko.Art.Tags (kaniko.artifact p) = cli.tags c
  /\ kaniko.Art.Repo (kaniko.artifact p) = cli.repo c
  /\ kaniko.Art.Registry (kaniko.artifact p) = cli.registry c
  /\ kaniko.Art.ArtifactFile (kaniko.artifact p) = cli.artifact_file c.

(** ** Worked inputs where the outside fails *)

Module Failing.

(** os.Setenv refuses the named variable. *)
Definition setenv (key : string) : Externals :=
  {| Setenv_err := fun _ k _ =>
       if String.eqb k key
       then Some (ErrorString "setenv: invalid argument")
       else None;
     WriteFile_err := fun _ _ _ => None;
     ReadFile_err := Sample.noSuchFile;
     LoadDefaultConfig_err := fun _ _ => None;
     API_err := fun _ _ _ => None;
     Exec_result := fun w _ => (env w, files w, None) |}.

(** The AWS configuration cannot be loaded. *)
Definition config : Externals :=
  {| Setenv_err := fun _ _ _ => None;
     WriteFile_err := fun _ _ _ => None;
     ReadFile_err := Sample.noSuchFile;
     LoadDefaultConfig_err := fun _ _ =>
       Some (ErrorString "failed to load shared config file");
     API_err := fun _ _ _ => None;
     Exec_result := fun w _ => (env w, files w, None) |}.


(** The builder's command ends with the given status: the error is an
    *exec.ExitError, which has an ExitCode method. *)
Definition buildExits (code : Z) (msg : string) : Externals :=
  {| Setenv_err := fun _ _ _ => None;
     WriteFile_err := fun _ _ _ => None;
     ReadFile_err := Sample.noSuchFile;
     LoadDefaultConfig_err := fun _ _ => None;
     API_err := fun _ _ _ => None;
     Exec_result := fun w _ => (env w, files w, Some (ExitCoder code msg)) |}.

(** The builder fails. *)
Definition build : Externals := buildExits 1 "exit status 1".


(** The environment file cannot be read. *)
Definition envFile (c : cli.Context) : Startup :=
  {| Load_result := fun w filename =>
       (env w, Some (ErrorString ("open " +:+ filename
                                  +:+ ": no such file or directory")));
     Parse_result := fun _ => inr (Some c) |}.

End Failing.

(** ** Facts about strings *)

Lemma app_String (c : ascii) (s t : string) :
  String c s +:+ t = String c (s +:+ t).
Proof. reflexivity. Qed.

Lemma string_app_assoc (a b c : string) :
  (a +:+ b) +:+ c = a +:+ (b +:+ c).
Proof.
  induction a as [|ch a IH]; [reflexivity|].
  rewrite !app_String. now rewrite IH.
Qed.

Lemma string_app_empty_r (s : string) : s +:+ "" = s.
Proof.
  induction s as [|ch s IH]; [reflexivity|].
  rewrite app_String. now rewrite IH.
Qed.

Lemma length_app_string (p t : string) :
  String.length (p +:+ t) = (String.length p + String.length t)%nat.
Proof. induction p; simpl; [reflexivity | now rewrite IHp]. Qed.

Lemma substring_0_length_app (p t : string) :
  String.substring 0 (String.length p) (p +:+ t) = p.
Proof.
  induction p as [|c p IH]; simpl.
  - destruct t; reflexivity.
  - now rewrite IH.
Qed.

Lemma substring_0_split (n : nat) (s : string) :
  (n <= String.length s)%nat ->
  exists t, s = String.substring 0 n s +:+ t.
Proof.
  revert s; induction n as [|n IH]; intros s Hn.
  - exists s. destruct s; reflexivity.
  - destruct s as [|c s]; simpl in Hn; [lia|].
    destruct (IH s) as [t Ht]; [lia|].
    exists t. simpl. rewrite app_String. f_equal. exact Ht.
Qed.

Lemma HasPrefix_spec (s prefix : string) :
  Strings.HasPrefix s prefix = true <-> exists t, s = prefix +:+ t.
Proof.
  unfold Strings.HasPrefix. rewrite andb_true_iff, Nat.leb_le, String.eqb_eq.
  split.
  - intros [Hlen Heq].
    destruct (substring_0_split _ _ Hlen) as [t Ht].
    exists t. now rewrite Heq in Ht.
  - intros [t ->]. split.
    + rewrite length_app_string. lia.
    + apply substring_0_length_app.
Qed.

Lemma eqb_empty_false (s : string) : s <> "" -> String.eqb s "" = false.
Proof. intros H. now apply String.eqb_neq. Qed.

(** The format "%s/%s" joins its two operands with a slash. *)
Lemma Sprintf_join (a b : string) :
  Fmt.Sprintf "%s/%s" [a; b] = a +:+ "/" +:+ b.
Proof.
  cbn [Fmt.Sprintf]. now rewrite string_app_empty_r.
Qed.

(** The bytes setupECRAuth formats are the descriptor that names the
    helper for the public domain and for the registry. *)
Lemma dockerConfig_is_descriptor (registry : string) :
  Fmt.Sprintf dockerConfigFormat [ecrPublicDomain; registry]
  = credHelperDescriptor [ecrPublicDomain; registry].
Proof.
  unfold credHelperDescriptor, credHelperEntry.
  cbn [map String.concat].
  rewrite !string_app_assoc. reflexivity.
Qed.

(** ** The registry classifier *)

(** C3. The registry classifier is a total boolean function of the
    registry string; it answers true exactly for the strings that start
    with the literal "public.ecr.aws", and in particular for that literal
    alone. *)
Theorem isRegistryPublic_iff_prefix :
  (forall registry : string,
      isRegistryPublic registry = true
      <-> exists rest, registry = "public.ecr.aws" +:+ rest)
  /\ (forall registry : string,
      isRegistryPublic registry = false
      <-> ~ exists rest, registry = "public.ecr.aws" +:+ rest)
  /\ isRegistryPublic "public.ecr.aws" = true.
Proof.
  assert (H : forall registry,
             isRegistryPublic registry = true
             <-> exists rest, registry = "public.ecr.aws" +:+ rest).
  { intros registry. unfold isRegistryPublic. apply HasPrefix_spec. }
  split; [exact H|]. split; [|reflexivity].
  intros registry. rewrite <- H.
  destruct (isRegistryPublic registry); split; intros; congruence.
Qed.

(** ** The trace only grows *)

Lemma emitted_unique (t evs1 evs2 : list Event) :
  t ++ evs1 = t ++ evs2 -> evs1 = evs2.
Proof. apply app_inv_head. Qed.

#[global] Instance Forall_Compositional (P : Event -> Prop) :
  Compositional (Forall P).
Proof. split; [constructor|]. intros. now apply Forall_app. Qed.

#[global] Instance True_Compositional : Compositional (fun _ => True).
Proof. split; auto. Qed.

Section Emits.

Context (X : Externals).

Lemma Emits_mono {A} (G1 G2 : list Event -> Prop) (f : World -> World * A) :
  (forall evs, G1 evs -> G2 evs) -> Emits G1 f -> Emits G2 f.
Proof.
  intros HG Hf w. destruct (Hf w) as (evs & Htr & Hevs).
  exists evs. auto.
Qed.

Lemma Emits_ret {R A} G `{!Compositional G} (a : A) :
  Emits G (ret (R := R) a).
Proof.
  intros w. exists []. simpl. rewrite app_nil_r.
  split; [reflexivity|apply comp_nil].
Qed.

Lemma Emits_return {R A} G `{!Compositional G} (r : R) :
  Emits G (return_ (A := A) r).
Proof.
  intros w. exists []. simpl. rewrite app_nil_r.
  split; [reflexivity|apply comp_nil].
Qed.

Lemma Emits_logrus_Fatal {A} G `{!Compositional G} (msg : string) :
  Emits G (logrus_Fatal (A := A) msg).
Proof. apply Emits_return; assumption. Qed.

Lemma Emits_bind {R A B} G `{!Compositional G}
      (m : Proc R A) (k : A -> Proc R B) :
  Emits G m -> (forall a, Emits G (k a)) -> Emits G (bind m k).
Proof.
  intros Hm Hk w. unfold bind.
  destruct (Hm w) as (evs1 & Htr1 & Hevs1).
  destruct (m w) as [w1 [r|a]]; simpl in *.
  - exists evs1. auto.
  - destruct (Hk a w1) as (evs2 & Htr2 & Hevs2).
    exists (evs1 ++ evs2). split.
    + rewrite Htr2, Htr1. now rewrite app_assoc.
    + now apply comp_app.
Qed.

Lemma Emits_call {R A} G (f : World -> World * A) :
  Emits G f -> Emits G (call (R := R) f).
Proof.
  intros Hf w. unfold call. destruct (Hf w) as (evs & Htr & Hevs).
  destruct (f w) as [w1 a]; simpl in *. eauto.
Qed.

(** A call whose result is known to satisfy [Q]. *)
Lemma Emits_bind_call {R A B} G `{!Compositional G}
      (f : World -> World * A) (Q : A -> Prop) (k : A -> Proc R B) :
  (forall w, Q (f w).2) ->
  Emits G f -> (forall a, Q a -> Emits G (k a)) ->
  Emits G (bind (call f) k).
Proof.
  intros HQ Hf Hk w. unfold bind, call.
  destruct (Hf w) as (evs1 & Htr1 & Hevs1). specialize (HQ w).
  destruct (f w) as [w1 a]; simpl in *.
  destruct (Hk a HQ w1) as (evs2 & Htr2 & Hevs2).
  exists (evs1 ++ evs2). split.
  - rewrite Htr2, Htr1. now rewrite app_assoc.
  - now apply comp_app.
Qed.

Lemma Emits_func {R} G (body : Proc R R) :
  Emits G body -> Emits G (func body).
Proof.
  intros Hb w. unfold func. destruct (Hb w) as (evs & Htr & Hevs).
  destruct (body w) as [w1 [r|r]]; simpl in *; eauto.
Qed.

Lemma Emits_when {R} G `{!Compositional G} (b : bool) (body : Proc R unit) :
  (b = true -> Emits G body) -> Emits G (when b body).
Proof.
  intros Hb. unfold when. destruct b; [auto|]. now apply Emits_ret.
Qed.

Lemma Emits_if_err {R} G `{!Compositional G}
      (err : error) (body : goerror -> Proc R unit) :
  (forall e, err = Some e -> Emits G (body e)) -> Emits G (if_err err body).
Proof.
  intros Hb. unfold if_err. destruct err; [auto|]. now apply Emits_ret.
Qed.

Lemma Emits_if_set {R} G `{!Compositional G}
      (flag : option string) (body : string -> Proc R unit) :
  (forall v, flag = Some v -> Emits G (body v)) -> Emits G (if_set flag body).
Proof.
  intros Hb. unfold if_set. destruct flag; [auto|]. now apply Emits_ret.
Qed.

(** The primitives append exactly one event. *)

Lemma Emits_os_Setenv G (key value : string) :
  G [EvSetenv key value] -> Emits G (os_Setenv X key value).
Proof.
  intros HG w. exists [EvSetenv key value]. split; [|done].
  unfold os_Setenv. now destruct (Setenv_err X w key value).
Qed.

Lemma Emits_ioutil_WriteFile G (filename data : string) (perm : N) :
  G [EvWriteFile filename data perm] ->
  Emits G (ioutil_WriteFile X filename data perm).
Proof.
  intros HG w. exists [EvWriteFile filename data perm]. split; [|done].
  unfold ioutil_WriteFile. now destruct (WriteFile_err X w filename data).
Qed.

Lemma Emits_ioutil_ReadFile G (filename : string) :
  (forall contents err, G [EvReadFile filename contents err]) ->
  Emits G (ioutil_ReadFile X filename).
Proof. intros HG w. eexists. split; [reflexivity|apply HG]. Qed.

Lemma Emits_config_LoadDefaultConfig G (region : string) :
  G [EvLoadDefaultConfig region] ->
  Emits G (config_LoadDefaultConfig X region).
Proof. intros HG w. eexists. split; [reflexivity|apply HG]. Qed.

Lemma Emits_send G (svc : Client) (input : Request) :
  G [EvAPI svc input] -> Emits G (send X svc input).
Proof. intros HG w. eexists. split; [reflexivity|apply HG]. Qed.

Lemma Emits_plugin_Exec G (p : kaniko.Plugin) :
  G [EvExec p] -> Emits G (plugin_Exec X p).
Proof.
  intros HG w. exists [EvExec p]. split; [|done].
  unfold plugin_Exec. now destruct (Exec_result X w p) as [[? ?] ?].
Qed.

(** After a read, the rest of a block may rely on the read event that
    precedes what it emits. *)
Lemma Emits_read_then {R B} G (filename : string)
      (k : string * error -> Proc R B) :
  (forall contents err,
      Emits (fun evs => G (EvReadFile filename contents err :: evs))
            (k (contents, err))) ->
  Emits G (bind (call (ioutil_ReadFile X filename)) k).
Proof.
  intros Hk w. unfold bind, call, ioutil_ReadFile.
  set (result := match files w !! filename with
                 | Some contents => (contents, None)
                 | None => _
                 end).
  destruct result as [contents err]. cbn [fst snd].
  destruct (Hk contents err (log (EvReadFile filename contents err) w))
    as (evs & Htr & Hevs).
  exists (EvReadFile filename contents err :: evs). split; [|exact Hevs].
  etransitivity; [exact Htr|].
  unfold log. cbn [trace]. now rewrite <- app_assoc.
Qed.

(** Nothing is emitted after a return. *)
Lemma Emits_returned {R A B} (r : R) (k : A -> Proc R B) :
  Emits (fun evs => evs = []) (bind (return_ r) k).
Proof. intros w. exists []. simpl. now rewrite app_nil_r. Qed.

(** The same with the result in view. *)

Lemma EmitsR_mono {A} (G1 G2 : list Event -> A -> Prop)
      (f : World -> World * A) :
  (forall evs a, G1 evs a -> G2 evs a) -> EmitsR G1 f -> EmitsR G2 f.
Proof.
  intros HG Hf w. destruct (Hf w) as (evs & Htr & Hevs).
  exists evs. auto.
Qed.

Lemma Emits_EmitsR {A} (G : list Event -> Prop) (f : World -> World * A) :
  Emits G f -> EmitsR (fun evs _ => G evs) f.
Proof. intros Hf w. exact (Hf w). Qed.

Lemma EmitsR_bind {R A B} (G1 : list Event -> R + A -> Prop)
      (G : list Event -> R + B -> Prop) (m : Proc R A) (k : A -> Proc R B) :
  EmitsR G1 m ->
  (forall evs1 r, G1 evs1 (inl r) -> G evs1 (inl r)) ->
  (forall evs1 a, G1 evs1 (inr a) ->
                  EmitsR (fun evs2 res => G (evs1 ++ evs2) res) (k a)) ->
  EmitsR G (bind m k).
Proof.
  intros Hm Hret Hk w. unfold bind.
  destruct (Hm w) as (evs1 & Htr1 & Hevs1).
  destruct (m w) as [w1 [r|a]]; cbn [fst snd] in *.
  - exists evs1. auto.
  - destruct (Hk evs1 a Hevs1 w1) as (evs2 & Htr2 & Hevs2).
    exists (evs1 ++ evs2). split; [|exact Hevs2].
    rewrite Htr2, Htr1. now rewrite app_assoc.
Qed.

(** For a property that holds of a suffix as soon as it holds of the
    whole, later steps may be checked on their own. *)
Lemma EmitsR_bind_tail {R A B} (G1 : list Event -> R + A -> Prop)
      (G : list Event -> R + B -> Prop) (m : Proc R A) (k : A -> Proc R B) :
  (forall evs1 evs2 res, G evs2 res -> G (evs1 ++ evs2) res) ->
  EmitsR G1 m ->
  (forall evs1 r, G1 evs1 (inl r) -> G evs1 (inl r)) ->
  (forall a, EmitsR G (k a)) ->
  EmitsR G (bind m k).
Proof.
  intros Htail Hm Hret Hk. eapply EmitsR_bind; [exact Hm|exact Hret|].
  intros evs1 a _. eapply EmitsR_mono; [|apply Hk].
  intros evs2 res. apply Htail.
Qed.

Lemma EmitsR_func {R} (G : list Event -> R -> Prop) (body : Proc R R) :
  EmitsR (fun evs res => G evs match res with inl r | inr r => r end) body ->
  EmitsR G (func body).
Proof.
  intros Hb w. unfold func. destruct (Hb w) as (evs & Htr & Hevs).
  destruct (body w) as [w1 [r|r]]; cbn [fst snd] in *; eauto.
Qed.

End Emits.

(** ** The functions of main.go, unfolded *)

Ltac unproc :=
  unfold func, bind, when, if_err, if_set, call, ret, return_, logrus_Fatal.

(** The two primitives that change the world. *)
Lemma os_Setenv_effect (X : Externals) (key value : string) (w : World) :
  let r := os_Setenv X key value w in
  trace r.1 = trace w ++ [EvSetenv key value]
  /\ files r.1 = files w
  /\ (r.2 = None -> env r.1 = <[key := value]> (env w))
  /\ (r.2 <> None -> env r.1 = env w).
Proof.
  unfold os_Setenv, log.
  destruct (Setenv_err X w key value); cbn [fst snd env files trace];
    repeat split; congruence.
Qed.

Lemma ioutil_WriteFile_effect (X : Externals) (filename data : string)
      (perm : N) (w : World) :
  let r := ioutil_WriteFile X filename data perm w in
  trace r.1 = trace w ++ [EvWriteFile filename data perm]
  /\ env r.1 = env w
  /\ (r.2 = None -> files r.1 = <[filename := data]> (files w))
  /\ (r.2 <> None -> files r.1 = files w).
Proof.
  unfold ioutil_WriteFile, log.
  destruct (WriteFile_err X w filename data); cbn [fst snd env files trace];
    repeat split; congruence.
Qed.

(** How setupECRAuth ends for a registry that is not empty: on the three
    ways it can take. *)
Lemma setupECRAuth_unfold (X : Externals)
      (accessKey secretKey registry : string) (w : World) :
  registry <> "" ->
  let descriptor := credHelperDescriptor [ecrPublicDomain; registry] in
  let write (w0 : World) : World * error :=
    match ioutil_WriteFile X dockerConfigPath descriptor 420 w0 with
    | (w1, Some e) =>
        (w1, Some (Wrapped "failed to create docker config file" e))
    | (w1, None) => (w1, None)
    end in
  setupECRAuth X accessKey secretKey registry w
  = if negb (String.eqb accessKey "") && negb (String.eqb secretKey "") then
      match os_Setenv X accessKeyEnv accessKey w with
      | (w1, Some e) =>
          (w1, Some (Wrapped
                       "failed to set AWS_ACCESS_KEY_ID environment variable"
                       e))
      | (w1, None) =>
          match os_Setenv X secretKeyEnv secretKey w1 with
          | (w2, Some e) =>
              (w2, Some (Wrapped
                     "failed to set AWS_SECRET_ACCESS_KEY environment variable"
                     e))
          | (w2, None) => write w2
          end
      end
    else write w.
Proof.
  intros Hreg descriptor write. subst write descriptor.
  unfold setupECRAuth. rewrite dockerConfig_is_descriptor.
  unproc. rewrite (eqb_empty_false _ Hreg).
  destruct (negb (String.eqb accessKey "") && negb (String.eqb secretKey "")).
  - destruct (os_Setenv X accessKeyEnv accessKey w) as [w1 [e|]];
      [reflexivity|].
    destruct (os_Setenv X secretKeyEnv secretKey w1) as [w2 [e|]];
      [reflexivity|].
    destruct (ioutil_WriteFile X dockerConfigPath _ 420 w2) as [w3 [e|]];
      reflexivity.
  - destruct (ioutil_WriteFile X dockerConfigPath _ 420 w) as [w3 [e|]];
      reflexivity.
Qed.

Ltac setup_cases X accessKey secretKey w :=
  destruct (negb (String.eqb accessKey "") && negb (String.eqb secretKey ""));
  unfold os_Setenv, ioutil_WriteFile, log; cbn [env files trace];
  repeat match goal with
         | |- context [Setenv_err X ?w0 ?k ?v] =>
             destruct (Setenv_err X w0 k v)
         | |- context [WriteFile_err X ?w0 ?f ?d] =>
             destruct (WriteFile_err X w0 f d)
         end;
  cbn [fst snd env files trace].

(** createRepository once its two configuration checks have passed. *)
Lemma createRepository_unfold (X : Externals) (region repo registry : string)
      (w : World) :
  registry <> "" -> repo <> "" ->
  let w1 := log (EvLoadDefaultConfig region) w in
  let svc := clientFor registry {| Region := region |} in
  let createErr := API_err X w1 svc (CreateRepositoryInput repo) in
  createRepository X region repo registry w
  = match LoadDefaultConfig_err X w region with
    | Some e => (w1, Some (Wrapped "failed to load aws config" e))
    | None =>
        (log (EvAPI svc (CreateRepositoryInput repo)) w1,
         match Errors.As createErr with
         | Some code =>
             if String.eqb code "RepositoryAlreadyExistsException"
             then None
             else Errors.Wrap createErr "failed to create repository"
         | None => None
         end)
    end.
Proof.
  intros Hreg Hrepo w1 svc createErr. subst w1 svc createErr.
  unfold createRepository, clientFor. unproc.
  rewrite (eqb_empty_false _ Hreg), (eqb_empty_false _ Hrepo).
  unfold config_LoadDefaultConfig.
  destruct (LoadDefaultConfig_err X w region) as [e|]; [reflexivity|].
  unfold ecr_NewFromConfig, ecrpublic_NewFromConfig, send.
  destruct (isRegistryPublic registry);
    match goal with
    | |- context [Errors.As ?e] => destruct (Errors.As e) as [code|]
    end; try reflexivity;
    destruct (String.eqb code "RepositoryAlreadyExistsException");
    reflexivity.
Qed.

Lemma uploadLifeCyclePolicy_unfold (X : Externals)
      (region repo lifecyclePolicy : string) (w : World) :
  let w1 := log (EvLoadDefaultConfig region) w in
  let svc := ecr_Client {| Region := region |} in
  let input := PutLifecyclePolicyInput lifecyclePolicy repo in
  uploadLifeCyclePolicy X region repo lifecyclePolicy w
  = match LoadDefaultConfig_err X w region with
    | Some e => (w1, Some (Wrapped "failed to load aws config" e))
    | None => (log (EvAPI svc input) w1, API_err X w1 svc input)
    end.
Proof.
  unfold uploadLifeCyclePolicy. unproc. unfold config_LoadDefaultConfig.
  destruct (LoadDefaultConfig_err X w region) as [e|]; [reflexivity|].
  unfold ecr_NewFromConfig, send. reflexivity.
Qed.

Lemma uploadRepositoryPolicy_unfold (X : Externals)
      (region repo registry repositoryPolicy : string) (w : World) :
  let w1 := log (EvLoadDefaultConfig region) w in
  let svc := clientFor registry {| Region := region |} in
  let input := SetRepositoryPolicyInput repositoryPolicy repo in
  uploadRepositoryPolicy X region repo registry repositoryPolicy w
  = match LoadDefaultConfig_err X w region with
    | Some e => (w1, Some (Wrapped "failed to load aws config" e))
    | None => (log (EvAPI svc input) w1, API_err X w1 svc input)
    end.
Proof.
  unfold uploadRepositoryPolicy, clientFor. unproc.
  unfold config_LoadDefaultConfig.
  destruct (LoadDefaultConfig_err X w region) as [e|]; [reflexivity|].
  unfold ecr_NewFromConfig, ecrpublic_NewFromConfig, send.
  destruct (isRegistryPublic registry); reflexivity.
Qed.

Lemma ioutil_ReadFile_result (X : Externals) (filename : string)
      (w : World) :
  exists contents err,
    ioutil_ReadFile X filename w
    = (log (EvReadFile filename contents err) w, (contents, err)).
Proof.
  unfold ioutil_ReadFile.
  destruct (files w !! filename); cbn [fst snd]; eauto.
Qed.

(** ** What each function of main.go asks of the outside *)

Ltac emits_intro :=
  let a := fresh "a" in
  intros a;
  try match type of a with
      | (_ * _)%type => destruct a
      | unit => destruct a
      end;
  cbv beta iota.

Ltac compositional := solve [assumption | typeclasses eauto].

Ltac emits_step :=
  first
    [ apply Emits_func
    | apply Emits_call
    | apply Emits_ret; compositional
    | apply Emits_return; compositional
    | apply Emits_logrus_Fatal; compositional
    | apply Emits_bind; [compositional | | emits_intro]
    | apply Emits_when; [compositional | intros ?]
    | apply Emits_if_err; [compositional | intros ? ?]
    | apply Emits_if_set; [compositional | intros ? ?]
    | apply Emits_os_Setenv; assumption
    | apply Emits_ioutil_WriteFile; assumption
    | apply Emits_config_LoadDefaultConfig; assumption
    | apply Emits_send; assumption
    | apply Emits_plugin_Exec ].

Section Footprints.

Context (X : Externals) (G : list Event -> Prop) `{!Compositional G}.

Lemma Emits_setupECRAuth (accessKey secretKey registry : string) :
  G [EvSetenv accessKeyEnv accessKey] ->
  G [EvSetenv secretKeyEnv secretKey] ->
  G [EvWriteFile dockerConfigPath
       (Fmt.Sprintf dockerConfigFormat [ecrPublicDomain; registry]) 420] ->
  Emits G (setupECRAuth X accessKey secretKey registry).
Proof.
  intros Ha Hs Hw. unfold setupECRAuth. repeat emits_step.
Qed.

Lemma Emits_createRepository (region repo registry : string) :
  G [EvLoadDefaultConfig region] ->
  G [EvAPI (clientFor registry {| Region := region |})
       (CreateRepositoryInput repo)] ->
  Emits G (createRepository X region repo registry).
Proof.
  intros Hl Hc. unfold createRepository.
  apply Emits_func.
  apply Emits_bind; [assumption|repeat emits_step|intros _].
  apply Emits_bind; [assumption|repeat emits_step|intros _].
  apply Emits_bind_call
    with (Q := fun r : aws_Config * error => r.1 = {| Region := region |});
    [assumption|reflexivity|apply Emits_config_LoadDefaultConfig; assumption|].
  intros [cfg err] Hcfg; cbn [fst] in Hcfg; subst cfg; cbv beta iota.
  repeat emits_step.
  unfold clientFor in Hc.
  destruct (isRegistryPublic registry); repeat emits_step.
Qed.

Lemma Emits_uploadLifeCyclePolicy (region repo lifecyclePolicy : string) :
  G [EvLoadDefaultConfig region] ->
  G [EvAPI (ecr_Client {| Region := region |})
       (PutLifecyclePolicyInput lifecyclePolicy repo)] ->
  Emits G (uploadLifeCyclePolicy X region repo lifecyclePolicy).
Proof.
  intros Hl Hc. unfold uploadLifeCyclePolicy.
  apply Emits_func.
  apply Emits_bind_call
    with (Q := fun r : aws_Config * error => r.1 = {| Region := region |});
    [assumption|reflexivity|apply Emits_config_LoadDefaultConfig; assumption|].
  intros [cfg err] Hcfg; cbn [fst] in Hcfg; subst cfg; cbv beta iota.
  repeat emits_step.
Qed.

Lemma Emits_uploadRepositoryPolicy
      (region repo registry repositoryPolicy : string) :
  G [EvLoadDefaultConfig region] ->
  G [EvAPI (clientFor registry {| Region := region |})
       (SetRepositoryPolicyInput repositoryPolicy repo)] ->
  Emits G (uploadRepositoryPolicy X region repo registry repositoryPolicy).
Proof.
  intros Hl Hc. unfold uploadRepositoryPolicy.
  apply Emits_func.
  apply Emits_bind_call
    with (Q := fun r : aws_Config * error => r.1 = {| Region := region |});
    [assumption|reflexivity|apply Emits_config_LoadDefaultConfig; assumption|].
  intros [cfg err] Hcfg; cbn [fst] in Hcfg; subst cfg; cbv beta iota.
  repeat emits_step.
  unfold clientFor in Hc.
  destruct (isRegistryPublic registry); repeat emits_step.
Qed.

End Footprints.

(** Any computation of the model only appends to the trace. *)
Ltac emits_any :=
  repeat first
    [ apply Emits_setupECRAuth; [compositional|exact I|exact I|exact I]
    | apply Emits_createRepository; [compositional|exact I|exact I]
    | apply Emits_uploadLifeCyclePolicy; [compositional|exact I|exact I]
    | apply Emits_uploadRepositoryPolicy; [compositional|exact I|exact I]
    | apply Emits_ioutil_ReadFile; intros; exact I
    | apply Emits_plugin_Exec; exact I
    | emits_step
    | exact I ].

Section Results.

Context (X : Externals).

(** What setupECRAuth does first. *)
Lemma setupECRAuth_first (accessKey secretKey registry : string) :
  EmitsR (fun evs err =>
            (registry = "" /\ evs = []
             /\ err = Some (ErrorString "registry must be specified"))
            \/ (registry <> ""
                /\ exists e rest,
                    evs = e :: rest
                    /\ (e = EvSetenv accessKeyEnv accessKey
                        \/ e = EvWriteFile dockerConfigPath
                                 (credHelperDescriptor
                                    [ecrPublicDomain; registry]) 420)))
         (setupECRAuth X accessKey secretKey registry).
Proof.
  intros w. destruct (String.eqb_spec registry "") as [->|Hreg].
  - exists []. split; [now rewrite app_nil_r|]. left. auto.
  - rewrite (setupECRAuth_unfold X _ _ _ w Hreg).
    setup_cases X accessKey secretKey w.
    all: rewrite <- ?app_assoc; eexists; (split; [reflexivity|]);
      right; (split; [exact Hreg|]); cbn [app]; eauto.
Qed.

Lemma uploadLifeCyclePolicy_sends (region repo text : string) :
  EmitsR (fun evs err =>
            err = None ->
            In (EvAPI (ecr_Client {| Region := region |})
                      (PutLifecyclePolicyInput text repo)) evs)
         (uploadLifeCyclePolicy X region repo text).
Proof.
  intros w. rewrite uploadLifeCyclePolicy_unfold.
  destruct (LoadDefaultConfig_err X w region) as [e|]; unfold log;
    cbn [fst snd trace].
  - eexists. split; [reflexivity|]. discriminate.
  - rewrite <- app_assoc. eexists. split; [reflexivity|].
    intros _. right. now left.
Qed.

Lemma uploadRepositoryPolicy_sends (region repo registry text : string) :
  EmitsR (fun evs err =>
            err = None ->
            In (EvAPI (clientFor registry {| Region := region |})
                      (SetRepositoryPolicyInput text repo)) evs)
         (uploadRepositoryPolicy X region repo registry text).
Proof.
  intros w. rewrite uploadRepositoryPolicy_unfold.
  destruct (LoadDefaultConfig_err X w region) as [e|]; unfold log;
    cbn [fst snd trace].
  - eexists. split; [reflexivity|]. discriminate.
  - rewrite <- app_assoc. eexists. split; [reflexivity|].
    intros _. right. now left.
Qed.

End Results.

(** ** The credential provisioner *)

(** C4. With an empty registry host setupECRAuth returns the
    configuration error "registry must be specified" and leaves the world
    as it found it: no environment variable is set, no file is written,
    nothing is asked of the outside. *)
Theorem setupECRAuth_empty_registry_fails_first :
  forall (X : Externals) (accessKey secretKey : string) (w : World),
    setupECRAuth X accessKey secretKey "" w
    = (w, Some (ErrorString "registry must be specified"))
    /\ env (setupECRAuth X accessKey secretKey "" w).1 = env w
    /\ files (setupECRAuth X accessKey secretKey "" w).1 = files w
    /\ trace (setupECRAuth X accessKey secretKey "" w).1 = trace w.
Proof.
  intros X accessKey secretKey w.
  assert (H : setupECRAuth X accessKey secretKey "" w
              = (w, Some (ErrorString "registry must be specified")))
    by reflexivity.
  rewrite H. auto.
Qed.

(** *** Reading the descriptor as JSON *)

Section Reading.

Import JSON.

(** A string of plain characters between quotes reads as itself. *)
Lemma chars_plain (s rest : string) :
  plain s = true -> chars (s +:+ String quote rest) = Some (s, rest).
Proof.
  induction s as [|c s IH]; [reflexivity|].
  cbn [plain]. intros [Hc Hs]%andb_true_iff.
  rewrite app_String. cbn [chars]. rewrite (IH Hs).
  unfold plain_char in Hc.
  apply andb_true_iff in Hc as [Hc Hb]. apply andb_true_iff in Hc as [Hc Hq].
  apply andb_true_iff in Hc as [Hlo Hhi].
  apply negb_true_iff in Hq, Hb. rewrite Hq, Hb.
  apply N.leb_le in Hlo.
  destruct (N.ltb_spec (N_of_ascii c) 32) as [Hlt|_]; [lia|reflexivity].
Qed.

Lemma read_value_space (fuel : nat) (x : string) :
  read_value (S fuel) (String " " x) = read_value (S fuel) x.
Proof. reflexivity. Qed.

Lemma read_members_space (fuel : nat) (x : string) :
  read_members (S fuel) (String " " x) = read_members (S fuel) x.
Proof. reflexivity. Qed.

Lemma read_value_string (fuel : nat) (s rest : string) :
  plain s = true ->
  read_value (S fuel) (String quote (s +:+ String quote rest))
  = Some (Str s, rest).
Proof.
  intros Hs.
  change (read_value (S fuel) (String quote (s +:+ String quote rest)))
    with ('(str, after) ← chars (s +:+ String quote rest);
          Some (Str str, after)).
  now rewrite (chars_plain s rest Hs).
Qed.

Lemma read_value_object (fuel : nat) (x : string)
      (ms : list (string * value)) (after : string) :
  read_members fuel (String quote x) = Some (ms, after) ->
  read_value (S fuel) (String "{" (String quote x)) = Some (Obj ms, after).
Proof.
  intros Hms.
  change (read_value (S fuel) (String "{" (String quote x)))
    with ('(ms, after) ← read_members fuel (String quote x);
          Some (Obj ms, after)).
  now rewrite Hms.
Qed.

Lemma read_members_name (fuel : nat) (name rest : string) :
  plain name = true ->
  read_members (S fuel)
    (String quote (name +:+ String quote (String ":" rest)))
  = '(v, after1) ← read_value fuel rest;
    match skip_ws after1 with
    | String c2 rest2 =>
        if Ascii.eqb c2 ","
        then '(ms, after2) ← read_members fuel rest2;
             Some ((name, v) :: ms, after2)
        else if Ascii.eqb c2 "}" then Some ([(name, v)], rest2)
        else None
    | EmptyString => None
    end.
Proof.
  intros Hname.
  change (read_members (S fuel)
            (String quote (name +:+ String quote (String ":" rest))))
    with ('(name, after) ← chars (name +:+ String quote (String ":" rest));
          match skip_ws after with
          | String c1 rest1 =>
              if Ascii.eqb c1 ":" then
                '(v, after1) ← read_value fuel rest1;
                match skip_ws after1 with
                | String c2 rest2 =>
                    if Ascii.eqb c2 "," then
                      '(ms, after2) ← read_members fuel rest2;
                      Some ((name, v) :: ms, after2)
                    else if Ascii.eqb c2 "}" then
                      Some ([(name, v)], rest2)
                    else None
                | EmptyString => None
                end
              else None
          | EmptyString => None
          end).
  now rewrite (chars_plain name _ Hname).
Qed.

(** member "}" *)
Lemma read_member_last (fuel : nat) (name rest after : string) (v : value) :
  plain name = true ->
  read_value fuel rest = Some (v, String "}" after) ->
  read_members (S fuel)
    (String quote (name +:+ String quote (String ":" rest)))
  = Some ([(name, v)], after).
Proof.
  intros Hname Hv. rewrite (read_members_name _ _ _ Hname), Hv. reflexivity.
Qed.

(** member "," members *)
Lemma read_member_next (fuel : nat) (name rest rest2 after : string)
      (v : value) (ms : list (string * value)) :
  plain name = true ->
  read_value fuel rest = Some (v, String "," rest2) ->
  read_members fuel rest2 = Some (ms, after) ->
  read_members (S fuel)
    (String quote (name +:+ String quote (String ":" rest)))
  = Some ((name, v) :: ms, after).
Proof.
  intros Hname Hv Hms. rewrite (read_members_name _ _ _ Hname), Hv.
  cbn [mbind option_bind].
  change (skip_ws (String "," rest2)) with (String "," rest2).
  cbv beta iota. change (Ascii.eqb "," ",") with true. cbv iota.
  now rewrite Hms.
Qed.

Local Infix "+>" := String (at level 60, right associativity).

(** The bytes setupECRAuth formats, token by token. *)
Lemma descriptor_tokens (r : string) :
  credHelperDescriptor ["public.ecr.aws"; r]
  = "{" +> quoted "credStore" (":" +> " " +> quoted "ecr-login"
      ("," +> " " +> quoted "credHelpers" (":" +> " " +> "{" +>
         quoted "public.ecr.aws" (":" +> " " +> quoted "ecr-login"
           ("," +> " " +> quoted r (":" +> " " +> quoted "ecr-login"
              "}}")))))).
Proof.
  change "public.ecr.aws" with ecrPublicDomain at 1.
  rewrite <- dockerConfig_is_descriptor. reflexivity.
Qed.

Lemma descriptor_length (r : string) :
  exists fuel,
    String.length (credHelperDescriptor ["public.ecr.aws"; r])
    = S (S (S (S (S (S (S fuel)))))).
Proof.
  rewrite descriptor_tokens. unfold quoted.
  cbn [String.length]. eexists. reflexivity.
Qed.

(** For a host of plain characters the descriptor is the JSON object
    with the credential store and the two credHelpers members. *)
Lemma parse_descriptor (r : string) :
  plain r = true ->
  parse (credHelperDescriptor ["public.ecr.aws"; r])
  = Some (Obj [("credStore", Str "ecr-login");
               ("credHelpers",
                Obj [("public.ecr.aws", Str "ecr-login");
                     (r, Str "ecr-login")])]).
Proof.
  intros Hr. unfold parse.
  destruct (descriptor_length r) as [fuel ->].
  rewrite descriptor_tokens. unfold quoted.
  erewrite read_value_object with (after := ""); [reflexivity|].
  eapply read_member_next; [reflexivity| |].
  { rewrite read_value_space. now apply read_value_string. }
  rewrite read_members_space.
  eapply read_member_last; [reflexivity|].
  rewrite read_value_space.
  eapply read_value_object.
  eapply read_member_next; [reflexivity| |].
  { rewrite read_value_space. now apply read_value_string. }
  rewrite read_members_space.
  eapply read_member_last; [exact Hr|].
  rewrite read_value_space. now apply read_value_string.
Qed.

(** The reader on small texts: the empty object, a nested object, an
    escaped quote inside a string, and two texts that are not JSON. *)
Example parse_empty_object : parse "{ }" = Some (Obj []).
Proof. reflexivity. Qed.

Example parse_nested_object :
  parse ("{" +> quoted "a" (":" +> "{" +> quoted "b" (":" +> quoted "c" "}}")))
  = Some (Obj [("a", Obj [("b", Str "c")])]).
Proof. reflexivity. Qed.

Example parse_escaped_quote :
  parse (quote +> "a" +> backslash +> quote +> "b" +> quote +> "")
  = Some (Str ("a" +> quote +> "b" +> "")).
Proof. reflexivity. Qed.

Example parse_trailing_comma :
  parse ("{" +> quoted "a" (":" +> quoted "b" ",}")) = None.
Proof. reflexivity. Qed.

Example parse_text_after_value :
  parse ("{" +> quoted "a" (":" +> quoted "b" "}}")) = None.
Proof. reflexivity. Qed.

End Reading.

(** C5, as the code has it.  For a registry host [r] that is not empty,
    the only file setupECRAuth writes is /kaniko/.docker/config.json, and
    what it writes there is the text of the descriptor with [r] between
    double quotes as it is; when the call succeeds the write has been
    made and the file holds exactly that text, whatever it held before.
    When [r] is made of printable ASCII characters other than the double
    quote and the backslash, that text is a JSON object whose credHelpers
    object has exactly two members, named "public.ecr.aws" and [r] in
    this order, each with the helper "ecr-login": the hosts it names are
    "public.ecr.aws" and [r], two hosts unless [r] is "public.ecr.aws"
    itself. *)
Theorem setupECRAuth_descriptor_two_hosts :
  forall (X : Externals) (accessKey secretKey r : string) (w : World),
    r <> "" ->
    let w' := (setupECRAuth X accessKey secretKey r w).1 in
    let err := (setupECRAuth X accessKey secretKey r w).2 in
    let descriptor := credHelperDescriptor ["public.ecr.aws"; r] in
    (exists evs,
        trace w' = trace w ++ evs
        /\ (forall f d p,
               In (EvWriteFile f d p) evs ->
               f = "/kaniko/.docker/config.json" /\ d = descriptor)
        /\ (err = None ->
            In (EvWriteFile "/kaniko/.docker/config.json" descriptor 420) evs))
    /\ (err = None ->
        files w' = <["/kaniko/.docker/config.json" := descriptor]> (files w))
    /\ (err = None ->
        files w' !! "/kaniko/.docker/config.json" = Some descriptor)
    /\ (JSON.plain r = true ->
        JSON.parse descriptor
        = Some (JSON.Obj
                  [("credStore", JSON.Str "ecr-login");
                   ("credHelpers",
                    JSON.Obj [("public.ecr.aws", JSON.Str "ecr-login");
                              (r, JSON.Str "ecr-login")])])
        /\ credHelperHosts descriptor = Some ["public.ecr.aws"; r]
        /\ (r <> "public.ecr.aws" -> NoDup ["public.ecr.aws"; r])).
Proof.
  intros X accessKey secretKey r w Hr w' err descriptor.
  assert (Hjson : JSON.plain r = true ->
                  JSON.parse descriptor
                  = Some (JSON.Obj
                            [("credStore", JSON.Str "ecr-login");
                             ("credHelpers",
                              JSON.Obj
                                [("public.ecr.aws", JSON.Str "ecr-login");
                                 (r, JSON.Str "ecr-login")])])
                  /\ credHelperHosts descriptor
                     = Some ["public.ecr.aws"; r]
                  /\ (r <> "public.ecr.aws" ->
                      NoDup ["public.ecr.aws"; r])).
  { intros Hplain. subst descriptor. unfold credHelperHosts.
    rewrite (parse_descriptor r Hplain).
    split; [reflexivity|]. split; [reflexivity|].
    intros Hne. apply NoDup_cons. split.
    - intros Hin. apply list_elem_of_singleton in Hin. congruence.
    - apply NoDup_singleton. }
  cut ((exists evs,
           trace w' = trace w ++ evs
           /\ (forall f d p,
                  In (EvWriteFile f d p) evs ->
                  f = "/kaniko/.docker/config.json" /\ d = descriptor)
           /\ (err = None ->
               In (EvWriteFile "/kaniko/.docker/config.json" descriptor 420)
                  evs))
       /\ (err = None ->
           files w'
           = <["/kaniko/.docker/config.json" := descriptor]> (files w))
       /\ (err = None ->
           files w' !! "/kaniko/.docker/config.json" = Some descriptor));
    [intros (H1 & H2 & H3); auto|].
  subst w' err. rewrite (setupECRAuth_unfold X _ _ _ w Hr).
  change (credHelperDescriptor [ecrPublicDomain; r]) with descriptor.
  change dockerConfigPath with "/kaniko/.docker/config.json".
  set (path := "/kaniko/.docker/config.json").
  (* the write, after exports that touched no file *)
  assert (Hwrite : forall w0 exports,
             trace w0 = trace w ++ exports ->
             files w0 = files w ->
             (forall f d p, ~ In (EvWriteFile f d p) exports) ->
             let res :=
               match ioutil_WriteFile X path descriptor 420 w0 with
               | (w1, Some e) =>
                   (w1, Some (Wrapped "failed to create docker config file" e))
               | (w1, None) => (w1, None)
               end in
             (exists evs,
                 trace res.1 = trace w ++ evs
                 /\ (forall f d p,
                        In (EvWriteFile f d p) evs ->
                        f = path /\ d = descriptor)
                 /\ (res.2 = None ->
                     In (EvWriteFile path descriptor 420) evs))
             /\ (res.2 = None ->
                 files res.1 = <[path := descriptor]> (files w))
             /\ (res.2 = None -> files res.1 !! path = Some descriptor)).
  { intros w0 exports Htr Hfiles Hexports res. subst res.
    destruct (ioutil_WriteFile_effect X path descriptor 420 w0)
      as (Htr1 & _ & Hok & _).
    destruct (ioutil_WriteFile X path descriptor 420 w0) as [w1 [e|]];
      cbn [fst snd] in *.
    - split; [|split; discriminate].
      exists (exports ++ [EvWriteFile path descriptor 420]).
      rewrite Htr1, Htr, <- app_assoc. split; [reflexivity|].
      split; [|discriminate].
      intros f d p Hin. apply in_app_or in Hin as [Hin|[Hin|[]]].
      + now apply Hexports in Hin.
      + now injection Hin as <- <- _.
    - rewrite (Hok eq_refl), Hfiles. split; [|split].
      + exists (exports ++ [EvWriteFile path descriptor 420]).
        rewrite Htr1, Htr, <- app_assoc. split; [reflexivity|]. split.
        * intros f d p Hin. apply in_app_or in Hin as [Hin|[Hin|[]]].
          -- now apply Hexports in Hin.
          -- now injection Hin as <- <- _.
        * intros _. apply in_or_app. right. now left.
      + reflexivity.
      + intros _. apply lookup_insert_eq. }
  (* an export that failed: nothing is written *)
  assert (Hfail : forall (w0 : World) (e : goerror) exports,
             trace w0 = trace w ++ exports ->
             (forall f d p, ~ In (EvWriteFile f d p) exports) ->
             (exists evs,
                 trace w0 = trace w ++ evs
                 /\ (forall f d p,
                        In (EvWriteFile f d p) evs ->
                        f = path /\ d = descriptor)
                 /\ (Some e = None ->
                     In (EvWriteFile path descriptor 420) evs))
             /\ (Some e = None ->
                 files w0 = <[path := descriptor]> (files w))
             /\ (Some e = None -> files w0 !! path = Some descriptor)).
  { intros w0 e exports Htr Hexports. split; [|split; discriminate].
    exists exports. split; [exact Htr|]. split; [|discriminate].
    intros f d p Hin. now apply Hexports in Hin. }
  destruct (negb (String.eqb accessKey "") && negb (String.eqb secretKey "")).
  - destruct (os_Setenv_effect X accessKeyEnv accessKey w)
      as (Htr1 & Hfiles1 & _).
    destruct (os_Setenv X accessKeyEnv accessKey w) as [w1 [e|]];
      cbn [fst snd] in *.
    { apply (Hfail w1 _ [EvSetenv accessKeyEnv accessKey] Htr1).
      intros f d p [Hin|[]]. discriminate Hin. }
    destruct (os_Setenv_effect X secretKeyEnv secretKey w1)
      as (Htr2 & Hfiles2 & _).
    assert (Hexports : forall f d p,
               ~ In (EvWriteFile f d p)
                    [EvSetenv accessKeyEnv accessKey;
                     EvSetenv secretKeyEnv secretKey]).
    { intros f d p [Hin|[Hin|[]]]; discriminate Hin. }
    rewrite Htr1, <- app_assoc in Htr2. rewrite Hfiles1 in Hfiles2.
    destruct (os_Setenv X secretKeyEnv secretKey w1) as [w2 [e|]];
      cbn [fst snd] in *.
    + exact (Hfail w2 _ _ Htr2 Hexports).
    + exact (Hwrite w2 _ Htr2 Hfiles2 Hexports).
  - apply (Hwrite w []); [now rewrite app_nil_r|reflexivity|].
    intros f d p [].
Qed.

Lemma setupECRAuth_descriptor_two_hosts_witness :
  Sample.privateRegistry <> ""
  /\ JSON.plain Sample.privateRegistry = true
  /\ files (setupECRAuth Sample.quiet "AKIAEXAMPLE" "secret"
              Sample.privateRegistry
              {| env := ∅;
                 files := {["/kaniko/.docker/config.json" := "{}"]};
                 trace := [] |}).1
     !! "/kaniko/.docker/config.json"
     = Some (credHelperDescriptor ["public.ecr.aws"; Sample.privateRegistry])
  /\ credHelperHosts
       (credHelperDescriptor ["public.ecr.aws"; Sample.privateRegistry])
     = Some ["public.ecr.aws"; Sample.privateRegistry].
Proof.
  assert (Hr : Sample.privateRegistry <> "") by discriminate.
  assert (Hplain : JSON.plain Sample.privateRegistry = true) by reflexivity.
  split; [exact Hr|]. split; [exact Hplain|].
  pose proof (setupECRAuth_descriptor_two_hosts
                Sample.quiet "AKIAEXAMPLE" "secret" Sample.privateRegistry
                {| env := ∅;
                   files := {["/kaniko/.docker/config.json" := "{}"]};
                   trace := [] |} Hr) as (_ & _ & Hfile & Hjson).
  split.
  - apply Hfile. reflexivity.
  - exact (proj1 (proj2 (Hjson Hplain))).
Defined.

(** C5 as the specification words it fails.  The registry is put between
    the quotes of the format as it is: for the registry [a": "x", "b] the
    call succeeds and the file it has written names three hosts, none of
    them the registry; and for the registry "public.ecr.aws" the file
    names that one host twice. *)
Lemma setupECRAuth_descriptor_other_hosts :
  Sample.quotedRegistry <> ""
  /\ (setupECRAuth Sample.quiet "" "" Sample.quotedRegistry
        Sample.emptyWorld).2 = None
  /\ (text ← files (setupECRAuth Sample.quiet "" "" Sample.quotedRegistry
                     Sample.emptyWorld).1
             !! "/kaniko/.docker/config.json";
      credHelperHosts text)
     = Some ["public.ecr.aws"; "a"; "b"]
  /\ ~ In Sample.quotedRegistry ["public.ecr.aws"; "a"; "b"]
  /\ (text ← files (setupECRAuth Sample.quiet "" "" "public.ecr.aws"
                     Sample.emptyWorld).1
             !! "/kaniko/.docker/config.json";
      credHelperHosts text)
     = Some ["public.ecr.aws"; "public.ecr.aws"]
  /\ ~ NoDup ["public.ecr.aws"; "public.ecr.aws"].
Proof.
  split; [discriminate|]. split; [reflexivity|].
  split; [vm_compute; reflexivity|]. split.
  - intros [H|[H|[H|[]]]]; discriminate H.
  - split; [vm_compute; reflexivity|].
    intros H. apply NoDup_cons in H as [H _]. apply H. now left.
Qed.

(** C10. With a registry that is not empty and exactly one of the two
    keys given, setupECRAuth sets no environment variable: the
    environment is left as it was and the only thing asked of the outside
    is the write of the descriptor.  The call returns what the write
    returns, so it succeeds when the write does, and the file then holds
    the descriptor. *)
Theorem setupECRAuth_single_key_leaves_env :
  forall (X : Externals) (accessKey secretKey registry : string) (w : World),
    registry <> "" ->
    (accessKey = "" /\ secretKey <> "")
    \/ (accessKey <> "" /\ secretKey = "") ->
    let w' := (setupECRAuth X accessKey secretKey registry w).1 in
    let err := (setupECRAuth X accessKey secretKey registry w).2 in
    let descriptor := credHelperDescriptor ["public.ecr.aws"; registry] in
    env w' = env w
    /\ trace w'
       = trace w ++ [EvWriteFile "/kaniko/.docker/config.json" descriptor 420]
    /\ err = Errors.Wrap
               (WriteFile_err X w "/kaniko/.docker/config.json" descriptor)
               "failed to create docker config file"
    /\ (WriteFile_err X w "/kaniko/.docker/config.json" descriptor = None ->
        err = None
        /\ files w'
           = <["/kaniko/.docker/config.json" := descriptor]> (files w)).
Proof.
  intros X accessKey secretKey registry w Hr Hkeys w' err descriptor.
  subst w' err. rewrite (setupECRAuth_unfold X _ _ _ w Hr).
  change (credHelperDescriptor [ecrPublicDomain; registry]) with descriptor.
  change dockerConfigPath with "/kaniko/.docker/config.json".
  assert (Hg : negb (String.eqb accessKey "") && negb (String.eqb secretKey "")
               = false).
  { destruct Hkeys as [[-> _]|[_ ->]]; [reflexivity|].
    now rewrite andb_false_r. }
  rewrite Hg. unfold ioutil_WriteFile, log. cbn [env files trace].
  destruct (WriteFile_err X w "/kaniko/.docker/config.json" descriptor);
    cbn [fst snd env files trace Errors.Wrap];
    repeat split; intros; congruence.
Qed.

Lemma setupECRAuth_single_key_leaves_env_witness :
  Sample.privateRegistry <> ""
  /\ (("AKIAEXAMPLE" = "" /\ "" <> "") \/ ("AKIAEXAMPLE" <> "" /\ "" = ""))
  /\ env (setupECRAuth Sample.quiet "AKIAEXAMPLE" "" Sample.privateRegistry
            Sample.emptyWorld).1
     = env Sample.emptyWorld
  /\ trace (setupECRAuth Sample.quiet "AKIAEXAMPLE" "" Sample.privateRegistry
              Sample.emptyWorld).1
     = [EvWriteFile "/kaniko/.docker/config.json"
          (credHelperDescriptor ["public.ecr.aws"; Sample.privateRegistry])
          420].
Proof.
  assert (Hr : Sample.privateRegistry <> "") by discriminate.
  assert (Hk : ("AKIAEXAMPLE" = "" /\ "" <> "")
               \/ ("AKIAEXAMPLE" <> "" /\ "" = ""))
    by (right; split; [discriminate|reflexivity]).
  split; [exact Hr|]. split; [exact Hk|].
  pose proof (setupECRAuth_single_key_leaves_env
                Sample.quiet "AKIAEXAMPLE" "" Sample.privateRegistry
                Sample.emptyWorld Hr Hk) as (Henv & Htr & _).
  split; [exact Henv|exact Htr].
Defined.

(** The success of the call hangs on the write: where the descriptor
    cannot be written the call returns the error of the write, wrapped. *)
Example setupECRAuth_returns_write_error :
  (setupECRAuth Sample.readOnly "AKIAEXAMPLE" "" Sample.privateRegistry
     Sample.emptyWorld).2
  = Some (Wrapped "failed to create docker config file"
            (ErrorString
               "open /kaniko/.docker/config.json: read-only file system")).
Proof. reflexivity. Qed.

(** ** The repository provisioner *)

(** C1.  The claim holds of every error of the create-repository call in
    which errors.As finds an API error: the code
    RepositoryAlreadyExistsException is treated as success and any other
    code is returned, wrapped.  It fails for an error of the call that
    carries no API error code, which the guard of main.go, line 290,
    lets through to [return nil]: here the SDK could not retrieve
    credentials, the error is not nil and is none of the "already
    exists" errors, and createRepository returns nil after the one
    request; the run goes on, invokes the builder and returns nil.  The
    sibling uploadRepositoryPolicy returns the same error of its request
    as it is. *)
Theorem createRepository_drops_error_without_code :
  API_err (Sample.answering Sample.noCredentials)
          (log (EvLoadDefaultConfig "us-east-1") Sample.emptyWorld)
          (clientFor Sample.privateRegistry {| Region := "us-east-1" |})
          (CreateRepositoryInput "app")
  = Some Sample.noCredentials
  /\ Errors.As (Some Sample.noCredentials) = None
  /\ Errors.As (Some Sample.noCredentials)
     <> Some "RepositoryAlreadyExistsException"
  /\ createRepository (Sample.answering Sample.noCredentials)
       "us-east-1" "app" Sample.privateRegistry Sample.emptyWorld
     = ({| env := ∅; files := ∅;
           trace := [EvLoadDefaultConfig "us-east-1";
                     EvAPI (ecr_Client {| Region := "us-east-1" |})
                           (CreateRepositoryInput "app")] |},
        None)
  /\ (run (Sample.answering Sample.noCredentials)
          (Sample.ctx Sample.privateRegistry false true "" "" None None)
          Sample.emptyWorld).2
     = Returned None
  /\ (exists before p,
         trace (run (Sample.answering Sample.noCredentials)
                    (Sample.ctx Sample.privateRegistry false true "" ""
                                None None)
                    Sample.emptyWorld).1
         = before ++ [EvExec p]
         /\ In (EvAPI (ecr_Client {| Region := "us-east-1" |})
                      (CreateRepositoryInput "app")) before)
  /\ (createRepository (Sample.answering Sample.accessDenied)
        "us-east-1" "app" Sample.privateRegistry Sample.emptyWorld).2
     = Some (Wrapped "failed to create repository" Sample.accessDenied)
  /\ (createRepository (Sample.answering Sample.alreadyExists)
        "us-east-1" "app" Sample.privateRegistry Sample.emptyWorld).2
     = None
  /\ (uploadRepositoryPolicy (Sample.answering Sample.noCredentials)
        "us-east-1" "app" Sample.privateRegistry "{}" Sample.emptyWorld).2
     = Some Sample.noCredentials.
Proof.
  split; [reflexivity|]. split; [reflexivity|]. split; [discriminate|].
  split; [reflexivity|]. split; [reflexivity|]. split.
  - eexists _, _. split; [reflexivity|]. cbn. auto.
  - repeat split.
Qed.

(** ** The steps of run *)

Section Steps.

Context (X : Externals).

(** What run asks of the outside, step by step: a property [G] of event
    lists that survives composition holds of what run emits as soon as
    it holds of what each guarded step can emit. *)
Lemma Emits_run G `{!Compositional G} (c : cli.Context) :
  (negb (cli.no_push c) || negb (String.eqb (cli.access_key c) "") = true ->
   G [EvSetenv accessKeyEnv (cli.access_key c)]
   /\ G [EvSetenv secretKeyEnv (cli.secret_key c)]
   /\ G [EvWriteFile dockerConfigPath
           (Fmt.Sprintf dockerConfigFormat
                        [ecrPublicDomain; cli.registry c]) 420]) ->
  (negb (cli.no_push c) && cli.create_repository c = true ->
   G [EvLoadDefaultConfig (cli.region c)]
   /\ G [EvAPI (clientFor (cli.registry c) {| Region := cli.region c |})
           (CreateRepositoryInput (cli.repo c))]) ->
  (forall path contents err evs,
      cli.lifecycle_policy c = Some path ->
      (err <> None -> evs = []) ->
      Forall (fun e => e = EvLoadDefaultConfig (cli.region c)
                       \/ e = EvAPI (ecr_Client {| Region := cli.region c |})
                                (PutLifecyclePolicyInput contents
                                                         (cli.repo c)))
             evs ->
      G (EvReadFile path contents err :: evs)) ->
  (forall path contents err evs,
      cli.repository_policy c = Some path ->
      (err <> None -> evs = []) ->
      Forall (fun e => e = EvLoadDefaultConfig (cli.region c)
                       \/ e = EvAPI (clientFor (cli.registry c)
                                               {| Region := cli.region c |})
                                (SetRepositoryPolicyInput contents
                                                          (cli.repo c)))
             evs ->
      G (EvReadFile path contents err :: evs)) ->
  (forall p,
      kaniko.Repo (kaniko.build p)
      = Fmt.Sprintf "%s/%s" [cli.registry c; cli.repo c] ->
      kaniko.CacheRepo (kaniko.build p)
      = Fmt.Sprintf "%s/%s" [cli.registry c; cli.cache_repo c] ->
      kaniko.EnableCache (kaniko.build p) = cli.enable_cache c ->
      kaniko.NoPush (kaniko.build p) = cli.no_push c ->
      G [EvExec p]) ->
  Emits G (run X c).
Proof.
  intros Hauth Hcreate Hlife Hrepo Hexec. unfold run.
  apply Emits_func.
  apply Emits_bind; [assumption| |intros _].
  { apply Emits_when; [assumption|]. intros Hg.
    destruct (Hauth Hg) as (Ha & Hs & Hw).
    apply Emits_bind; [assumption| |intros err].
    - apply Emits_call. now apply Emits_setupECRAuth.
    - repeat emits_step. }
  apply Emits_bind; [assumption| |intros _].
  { apply Emits_when; [assumption|]. intros Hg.
    destruct (Hcreate Hg) as (Hl & Hc).
    apply Emits_bind; [assumption| |intros err].
    - apply Emits_call. now apply Emits_createRepository.
    - repeat emits_step. }
  apply Emits_bind; [assumption| |intros _].
  { apply Emits_if_set; [assumption|]. intros path Hpath.
    apply Emits_read_then. intros contents [e|].
    - eapply Emits_mono; [|apply Emits_returned].
      intros evs ->. apply (Hlife path contents (Some e) []); auto.
    - eapply Emits_mono.
      + intros evs Hevs.
        apply (Hlife path contents None evs Hpath); [congruence|exact Hevs].
      + assert (Compositional
                  (Forall (fun e => e = EvLoadDefaultConfig (cli.region c)
                       \/ e = EvAPI (ecr_Client {| Region := cli.region c |})
                                (PutLifecyclePolicyInput contents
                                                         (cli.repo c))))).
        { split; [constructor|]. intros. now apply Forall_app. }
        apply Emits_bind; [assumption|apply Emits_ret; assumption|intros _].
        apply Emits_bind; [assumption| |intros err].
        * apply Emits_call. apply Emits_uploadLifeCyclePolicy;
            [assumption| |]; (constructor; [eauto|constructor]).
        * repeat emits_step. }
  apply Emits_bind; [assumption| |intros _].
  { apply Emits_if_set; [assumption|]. intros path Hpath.
    apply Emits_read_then. intros contents [e|].
    - eapply Emits_mono; [|apply Emits_returned].
      intros evs ->. apply (Hrepo path contents (Some e) []); auto.
    - eapply Emits_mono.
      + intros evs Hevs.
        apply (Hrepo path contents None evs Hpath); [congruence|exact Hevs].
      + assert (Compositional
                  (Forall (fun e => e = EvLoadDefaultConfig (cli.region c)
                       \/ e = EvAPI (clientFor (cli.registry c)
                                               {| Region := cli.region c |})
                                (SetRepositoryPolicyInput contents
                                                          (cli.repo c))))).
        { split; [constructor|]. intros. now apply Forall_app. }
        apply Emits_bind; [assumption|apply Emits_ret; assumption|intros _].
        apply Emits_bind; [assumption| |intros err].
        * apply Emits_call. apply Emits_uploadRepositoryPolicy;
            [assumption| |]; (constructor; [eauto|constructor]).
        * repeat emits_step. }
  apply Emits_bind; [assumption| |intros err].
  - apply Emits_call, Emits_plugin_Exec. now apply Hexec.
  - now apply Emits_return.
Qed.

(** A guarded call whose error, if any, ends the function:
    [if g { if err := f(); err != nil { return mk(err) } }]. *)
Lemma EmitsR_guarded_call {R} (Gf : list Event -> error -> Prop)
      (g : bool) (f : World -> World * error) (mk : error -> R) :
  EmitsR Gf f ->
  EmitsR (fun evs res =>
            if g
            then exists err,
                Gf evs err
                /\ res = match err with
                         | Some _ => inl (mk err)
                         | None => inr tt
                         end
            else evs = [] /\ res = inr tt)
         (when g (let* err := call f in
                  if_err err (fun _ => return_ (mk err)))).
Proof.
  intros Hf w. destruct g; unfold when.
  - unfold bind, call. destruct (Hf w) as (evs & Htr & Hevs).
    destruct (f w) as [w1 [e|]]; cbn [fst snd] in *;
      exists evs; (split; [exact Htr|]); eexists; split; eauto.
  - exists []. cbn. rewrite app_nil_r. auto.
Qed.

(** A policy block of run: nothing happens when the flag is not set;
    when it is set the file is read first, and the block either exits the
    process or goes on, the file read and the upload made without an
    error. *)
Lemma EmitsR_policy_block_upload (Gu : string -> list Event -> Prop)
      (flag : option string)
      (upload : string -> World -> World * error) (msg : goerror -> string) :
  (forall contents,
      EmitsR (fun evs err => err = None -> Gu contents evs)
             (upload contents)) ->
  EmitsR (fun evs res =>
            match flag with
            | None => evs = [] /\ res = inr tt
            | Some path =>
                exists contents err rest,
                  evs = EvReadFile path contents err :: rest
                  /\ ((res = inr tt /\ err = None /\ Gu contents rest)
                      \/ exists status text,
                          res = inl (Exited status text))
            end)
         (if_set flag (fun path =>
            let* (contents, err) := call (ioutil_ReadFile X path) in
            if_err err (fun e => logrus_Fatal (Error e)) ;;
            let* err := call (upload contents) in
            if_err err (fun e => logrus_Fatal (msg e)))).
Proof.
  intros Hup w. destruct flag as [path|]; unfold if_set.
  - destruct (ioutil_ReadFile_result X path w) as (contents & err & Hread).
    unfold bind, call, if_err, logrus_Fatal, return_, ret.
    rewrite Hread. cbv beta iota.
    destruct err as [e|]; cbv beta iota.
    + eexists. split; [reflexivity|]. cbn [snd]. eauto 8.
    + destruct (Hup contents (log (EvReadFile path contents None) w))
        as (evs & Htr & Hevs).
      destruct (upload contents _) as [w1 [e|]]; cbn [fst snd] in *;
        (exists (EvReadFile path contents None :: evs); split;
         [rewrite Htr; unfold log; cbn [trace]; now rewrite <- app_assoc|]);
        eauto 10.
  - exists []. cbn. rewrite app_nil_r. auto.
Qed.

Lemma EmitsR_policy_block (flag : option string)
      (upload : string -> World -> World * error) (msg : goerror -> string) :
  (forall contents, Emits (fun _ => True) (upload contents)) ->
  EmitsR (fun evs res =>
            match flag with
            | None => evs = [] /\ res = inr tt
            | Some path =>
                (exists contents err rest,
                    evs = EvReadFile path contents err :: rest)
                /\ (res = inr tt \/ exists status text,
                                     res = inl (Exited status text))
            end)
         (if_set flag (fun path =>
            let* (contents, err) := call (ioutil_ReadFile X path) in
            if_err err (fun e => logrus_Fatal (Error e)) ;;
            let* err := call (upload contents) in
            if_err err (fun e => logrus_Fatal (msg e)))).
Proof.
  intros Hup.
  eapply EmitsR_mono;
    [|apply EmitsR_policy_block_upload with (Gu := fun _ _ => True)].
  - intros evs res. cbv beta. destruct flag as [path|]; [|auto].
    intros (contents & err & rest & -> & [(-> & _)|Hexit]); eauto 6.
  - intros contents. eapply EmitsR_mono; [|apply Emits_EmitsR, Hup]. auto.
Qed.

(** The last step of run. *)
Lemma EmitsR_exec_step (p : kaniko.Plugin) :
  EmitsR (fun evs res =>
            exists err, evs = [EvExec p] /\ res = inl (Returned err))
         (let* err := call (plugin_Exec X p) in
          return_ (R := Outcome) (A := Outcome) (Returned err)).
Proof.
  intros w. unfold bind, call, plugin_Exec, return_.
  destruct (Exec_result X w p) as [[env' files'] err]. cbn [fst snd trace].
  exists [EvExec p]. split; eauto.
Qed.

End Steps.

(** ** How a run ends *)

(** The first two steps of run end it only by returning an error; a
    policy block ends it only by exiting the process. *)
Ltac past_guarded_call Htail :=
  apply EmitsR_bind_tail
    with (G1 := fun _ res => res = inr tt
                             \/ exists e, res = inl (Returned (Some e)));
  [ exact Htail
  | eapply EmitsR_mono;
    [|apply EmitsR_guarded_call with (Gf := fun _ _ => True);
      apply Emits_EmitsR; emits_any];
    intros ? ?; cbv beta;
    match goal with
    | |- (if ?g then _ else _) -> _ => destruct g
    end; [intros ([?|] & _ & ->)|intros [_ ->]]; eauto
  | intros ? ? [|[? [= ->]]]; [discriminate|]; intros ?; discriminate
  | intros _ ].

Ltac past_policy_block Htail :=
  apply EmitsR_bind_tail
    with (G1 := fun _ res => res = inr tt
                             \/ exists status text,
                                 res = inl (Exited status text));
  [ exact Htail
  | eapply EmitsR_mono; [|apply EmitsR_policy_block; intros; emits_any];
    intros ? ?; cbv beta;
    match goal with
    | |- match ?flag with _ => _ end -> _ => destruct flag
    end; [intros [_ ?]|intros [_ ->]]; eauto
  | intros ? ? [|(? & ? & [= ->])]; [discriminate|]; intros ?; discriminate
  | intros _ ].

Section RunOutcome.

Context (X : Externals).

(** A run that ends by returning nil has invoked the builder, and that
    was the last thing it did. *)
Lemma run_success_invokes_builder (c : cli.Context) :
  EmitsR (fun evs out =>
            out = Returned None -> exists evs' p, evs = evs' ++ [EvExec p])
         (run X c).
Proof.
  unfold run. cbv zeta. apply EmitsR_func.
  set (G := fun (evs : list Event) (res : Outcome + Outcome) =>
              match res with inl r | inr r => r end = Returned None ->
              exists evs' p, evs = evs' ++ [EvExec p]).
  assert (Htail : forall evs1 evs2 res, G evs2 res -> G (evs1 ++ evs2) res).
  { intros evs1 evs2 res HG Hres. destruct (HG Hres) as (evs' & p & ->).
    exists (evs1 ++ evs'), p. now rewrite app_assoc. }
  past_guarded_call Htail. past_guarded_call Htail.
  past_policy_block Htail. past_policy_block Htail.
  eapply EmitsR_mono; [|apply EmitsR_exec_step].
  intros evs res (err & -> & ->) _. exists []. eauto.
Qed.

(** A run that returns nil with the lifecycle-policy flag set has read
    the file the flag names and has sent its contents, as read, to the
    private client. *)
Lemma run_success_uploads_lifecycle_policy (c : cli.Context) (path : string) :
  cli.lifecycle_policy c = Some path ->
  EmitsR (fun evs out =>
            out = Returned None ->
            exists contents,
              In (EvReadFile path contents None) evs
              /\ In (EvAPI (ecr_Client {| Region := cli.region c |})
                           (PutLifecyclePolicyInput contents (cli.repo c)))
                    evs)
         (run X c).
Proof.
  intros Hpath. unfold run. cbv zeta. apply EmitsR_func.
  set (G := fun (evs : list Event) (res : Outcome + Outcome) =>
              match res with inl r | inr r => r end = Returned None ->
              exists contents,
                In (EvReadFile path contents None) evs
                /\ In (EvAPI (ecr_Client {| Region := cli.region c |})
                             (PutLifecyclePolicyInput contents (cli.repo c)))
                      evs).
  assert (Htail : forall evs1 evs2 res, G evs2 res -> G (evs1 ++ evs2) res).
  { intros evs1 evs2 res HG Hres. destruct (HG Hres) as (contents & ? & ?).
    exists contents. split; apply in_or_app; now right. }
  past_guarded_call Htail. past_guarded_call Htail.
  eapply EmitsR_bind;
    [apply EmitsR_policy_block_upload
       with (Gu := fun contents evs =>
                     In (EvAPI (ecr_Client {| Region := cli.region c |})
                               (PutLifecyclePolicyInput contents
                                                        (cli.repo c))) evs);
     intros contents; apply uploadLifeCyclePolicy_sends
    | |]; rewrite Hpath; cbv beta iota.
  - intros evs r (contents & err & rest & _ & [([=] & _)|(s & t & [= ->])]).
    intros ?. discriminate.
  - intros evs1 []
           (contents & err & rest & -> & [(_ & -> & Hin)|(s & t & [=])]).
    eapply EmitsR_mono; [|apply Emits_EmitsR with (G := fun _ => True)].
    + intros evs2 res _ _. exists contents.
      split; apply in_or_app; left; [now left|now right].
    + emits_any.
Qed.

(** The same for the repository policy, which goes to the client the
    classifier selects. *)
Lemma run_success_uploads_repository_policy (c : cli.Context) (path : string) :
  cli.repository_policy c = Some path ->
  EmitsR (fun evs out =>
            out = Returned None ->
            exists contents,
              In (EvReadFile path contents None) evs
              /\ In (EvAPI (clientFor (cli.registry c)
                                      {| Region := cli.region c |})
                           (SetRepositoryPolicyInput contents (cli.repo c)))
                    evs)
         (run X c).
Proof.
  intros Hpath. unfold run. cbv zeta. apply EmitsR_func.
  set (G := fun (evs : list Event) (res : Outcome + Outcome) =>
              match res with inl r | inr r => r end = Returned None ->
              exists contents,
                In (EvReadFile path contents None) evs
                /\ In (EvAPI (clientFor (cli.registry c)
                                        {| Region := cli.region c |})
                             (SetRepositoryPolicyInput contents (cli.repo c)))
                      evs).
  assert (Htail : forall evs1 evs2 res, G evs2 res -> G (evs1 ++ evs2) res).
  { intros evs1 evs2 res HG Hres. destruct (HG Hres) as (contents & ? & ?).
    exists contents. split; apply in_or_app; now right. }
  past_guarded_call Htail. past_guarded_call Htail.
  past_policy_block Htail.
  eapply EmitsR_bind;
    [apply EmitsR_policy_block_upload
       with (Gu := fun contents evs =>
                     In (EvAPI (clientFor (cli.registry c)
                                          {| Region := cli.region c |})
                               (SetRepositoryPolicyInput contents
                                                         (cli.repo c))) evs);
     intros contents; apply uploadRepositoryPolicy_sends
    | |]; rewrite Hpath; cbv beta iota.
  - intros evs r (contents & err & rest & _ & [([=] & _)|(s & t & [= ->])]).
    intros ?. discriminate.
  - intros evs1 []
           (contents & err & rest & -> & [(_ & -> & Hin)|(s & t & [=])]).
    eapply EmitsR_mono; [|apply Emits_EmitsR with (G := fun _ => True)].
    + intros evs2 res _ _. exists contents.
      split; apply in_or_app; left; [now left|now right].
    + emits_any.
Qed.

(** With push suppressed and no access key, a run still asks something
    of the outside: at the least it invokes the builder or reads a policy
    file. *)
Lemma run_without_auth_goes_on (c : cli.Context) :
  cli.no_push c = true -> cli.access_key c = "" ->
  EmitsR (fun evs _ => evs <> []) (run X c).
Proof.
  intros Hnp Hak. unfold run. cbv zeta. rewrite Hnp, Hak.
  change (negb true || negb (String.eqb "" "")) with false.
  change (negb true && cli.create_repository c) with false.
  apply EmitsR_func.
  set (G := fun (evs : list Event) (res : Outcome + Outcome) => evs <> []).
  assert (Htail : forall evs1 evs2 res, G evs2 res -> G (evs1 ++ evs2) res).
  { intros evs1 evs2 res HG Hnil. apply app_eq_nil in Hnil as [_ Hnil].
    exact (HG Hnil). }
  apply EmitsR_bind_tail with (G1 := fun _ res => res = inr tt);
    [exact Htail| | |intros _].
  { eapply EmitsR_mono;
      [|apply EmitsR_guarded_call with (Gf := fun _ _ => True);
        apply Emits_EmitsR; emits_any].
    intros evs res [_ ->]. reflexivity. }
  { intros evs r [=]. }
  apply EmitsR_bind_tail with (G1 := fun _ res => res = inr tt);
    [exact Htail| | |intros _].
  { eapply EmitsR_mono;
      [|apply EmitsR_guarded_call with (Gf := fun _ _ => True);
        apply Emits_EmitsR; emits_any].
    intros evs res [_ ->]. reflexivity. }
  { intros evs r [=]. }
  eapply EmitsR_bind_tail;
    [exact Htail|apply EmitsR_policy_block; intros; emits_any| |intros _].
  { intros evs r. cbv beta.
    destruct (cli.lifecycle_policy c);
      [intros [(contents & err & rest & ->) _]|intros [_ [=]]].
    discriminate. }
  eapply EmitsR_bind_tail;
    [exact Htail|apply EmitsR_policy_block; intros; emits_any| |intros _].
  { intros evs r. cbv beta.
    destruct (cli.repository_policy c);
      [intros [(contents & err & rest & ->) _]|intros [_ [=]]].
    discriminate. }
  eapply EmitsR_mono; [|apply EmitsR_exec_step].
  intros evs res (err & -> & _). discriminate.
Qed.

(** When the credential provisioner is due, a run starts with it: either
    the registry is empty and the run returns the configuration error at
    once, or the first thing asked of the outside is the export of the
    access key or the write of the descriptor. *)
Lemma run_starts_with_auth (c : cli.Context) :
  negb (cli.no_push c) || negb (String.eqb (cli.access_key c) "") = true ->
  EmitsR (fun evs out =>
            (cli.registry c = "" /\ evs = []
             /\ out = Returned (Some (ErrorString
                                         "registry must be specified")))
            \/ (cli.registry c <> ""
                /\ exists e rest,
                    evs = e :: rest
                    /\ (e = EvSetenv accessKeyEnv (cli.access_key c)
                        \/ e = EvWriteFile dockerConfigPath
                                 (credHelperDescriptor
                                    [ecrPublicDomain; cli.registry c]) 420)))
         (run X c).
Proof.
  intros Hg. unfold run. cbv zeta. rewrite Hg.
  apply EmitsR_func.
  eapply EmitsR_bind;
    [apply EmitsR_guarded_call, setupECRAuth_first| |]; cbv beta iota.
  - intros evs r ([e|] & Hfirst & [= ->]).
    destruct Hfirst as [(Hreg & -> & ->)|Hfirst]; auto.
  - intros evs1 [] ([e|] & Hfirst & [=]).
    destruct Hfirst as [(_ & _ & [=])|(Hreg & e & rest & -> & He)].
    eapply EmitsR_mono; [|apply Emits_EmitsR with (G := fun _ => True)].
    + intros evs2 res _. right. split; [exact Hreg|].
      exists e, (rest ++ evs2). auto.
    + emits_any.
Qed.

End RunOutcome.

(** ** The guard of the credential provisioner *)

(** C2. A run leaves the credential provisioner out exactly when push is
    suppressed and the access key is empty.  Then no environment variable
    is set and no file is written by the run, which goes on to its later
    steps.  In every other configuration setupECRAuth runs first: with an
    empty registry the run returns its configuration error before
    anything else happens, and otherwise the first thing the run asks of
    the outside is setupECRAuth's export of the access key or its write
    of the descriptor. *)
Theorem setupECRAuth_skipped_iff_no_push_and_no_key :
  forall (X : Externals) (c : cli.Context) (w : World),
    exists evs,
      trace (run X c w).1 = trace w ++ evs
      /\ ((cli.no_push c = true /\ cli.access_key c = "")
          <-> (evs <> [] /\ Forall (fun e => isAuthEvent e = false) evs))
      /\ (~ (cli.no_push c = true /\ cli.access_key c = "") ->
          (cli.registry c = "" /\ evs = []
           /\ (run X c w).2
              = Returned (Some (ErrorString "registry must be specified")))
          \/ (cli.registry c <> ""
              /\ exists e rest,
                  evs = e :: rest
                  /\ (e = EvSetenv "AWS_ACCESS_KEY_ID" (cli.access_key c)
                      \/ e = EvWriteFile "/kaniko/.docker/config.json"
                               (credHelperDescriptor
                                  ["public.ecr.aws"; cli.registry c]) 420))).
Proof.
  intros X c w.
  destruct (negb (cli.no_push c) || negb (String.eqb (cli.access_key c) ""))
    eqn:Hg.
  - (* setupECRAuth is due *)
    assert (Hrun : ~ (cli.no_push c = true /\ cli.access_key c = "")).
    { intros [Hnp Hak]. rewrite Hnp, Hak in Hg. discriminate Hg. }
    destruct (run_starts_with_auth X c Hg w) as (evs & Htr & Hevs).
    exists evs. split; [exact Htr|]. split; [|intros _; exact Hevs].
    split; [intros H; now destruct Hrun|].
    intros [Hne Hall]. exfalso.
    destruct Hevs as [(_ & -> & _)|(_ & e & rest & -> & He)]; [now apply Hne|].
    apply Forall_inv in Hall. destruct He as [->| ->]; discriminate Hall.
  - (* setupECRAuth is left out *)
    apply orb_false_iff in Hg as [Hnp Hak].
    apply negb_false_iff in Hnp. apply negb_false_iff, String.eqb_eq in Hak.
    destruct (run_without_auth_goes_on X c Hnp Hak w) as (evs & Htr & Hne).
    destruct (Emits_run X (Forall (fun e => isAuthEvent e = false)) c)
      with (w := w) as (evs' & Htr' & Hall).
    + rewrite Hnp, Hak. discriminate.
    + rewrite Hnp. discriminate.
    + intros path contents err evs0 _ _ Hevs0.
      constructor; [reflexivity|].
      eapply Forall_impl; [exact Hevs0|]. now intros e [->| ->].
    + intros path contents err evs0 _ _ Hevs0.
      constructor; [reflexivity|].
      eapply Forall_impl; [exact Hevs0|]. now intros e [->| ->].
    + intros p _ _ _ _. constructor; [reflexivity|constructor].
    + rewrite Htr in Htr'. apply emitted_unique in Htr'. subst evs'.
      exists evs. split; [exact Htr|]. split; [tauto|].
      intros Hrun. now destruct Hrun.
Qed.

Lemma setupECRAuth_skipped_iff_no_push_and_no_key_witness :
  Forall (fun e => isAuthEvent e = false)
         (trace (run Sample.quiet
                     (Sample.ctx Sample.privateRegistry true false "" ""
                                 None None)
                     Sample.emptyWorld).1).
Proof.
  destruct (setupECRAuth_skipped_iff_no_push_and_no_key
              Sample.quiet
              (Sample.ctx Sample.privateRegistry true false "" "" None None)
              Sample.emptyWorld) as (evs & Htr & Hiff & _).
  change (trace Sample.emptyWorld ++ evs) with evs in Htr.
  rewrite Htr. apply Hiff. split; reflexivity.
Defined.

(** ** The requests of a run *)

(** Closes a goal [P e] where [P] speaks of events of another shape than
    [e], and a goal [Forall P evs] for events known by their shape. *)
Ltac other_event :=
  repeat match goal with
         | |- Forall _ [] => constructor
         | |- Forall _ (_ :: _) => constructor
         | |- forall _, _ => intro
         | H : _ = _ |- _ => discriminate H
         | |- _ => progress cbv beta
         end.

(** C6. Whatever the configuration, and so also when the registry is
    classified public, every put-lifecycle-policy request of a run goes
    to a client of the private API; none goes to the public one.  A run
    that returns nil with the lifecycle-policy flag set has made the
    request.  uploadLifeCyclePolicy, which run calls for it, does not
    even receive the registry: once the AWS configuration is loaded it
    sends its one request through the private client. *)
Theorem lifecycle_policy_private_only :
  (forall (X : Externals) (c : cli.Context) (w : World),
      exists evs,
        trace (run X c w).1 = trace w ++ evs
        /\ (forall svc text name,
               In (EvAPI svc (PutLifecyclePolicyInput text name)) evs ->
               surface svc = PrivateAPI
               /\ svc = ecr_Client {| Region := cli.region c |}
               /\ is_Some (cli.lifecycle_policy c))
        /\ (is_Some (cli.lifecycle_policy c) ->
            (run X c w).2 = Returned None ->
            exists text,
              In (EvAPI (ecr_Client {| Region := cli.region c |})
                        (PutLifecyclePolicyInput text (cli.repo c))) evs))
  /\ (forall (X : Externals) (region repo text : string) (w : World),
         LoadDefaultConfig_err X w region = None ->
         trace (uploadLifeCyclePolicy X region repo text w).1
         = trace w ++ [EvLoadDefaultConfig region;
                       EvAPI (ecr_Client {| Region := region |})
                             (PutLifecyclePolicyInput text repo)]).
Proof.
  split.
  - intros X c w.
    set (P := fun e : Event =>
                forall svc text name,
                  e = EvAPI svc (PutLifecyclePolicyInput text name) ->
                  surface svc = PrivateAPI
                  /\ svc = ecr_Client {| Region := cli.region c |}
                  /\ is_Some (cli.lifecycle_policy c)).
    destruct (Emits_run X (Forall P) c) with (w := w) as (evs & Htr & Hevs).
    + intros _. repeat split; subst P; other_event.
    + intros _. unfold clientFor.
      destruct (isRegistryPublic (cli.registry c));
        split; subst P; other_event.
    + intros path contents err evs Hpath _ Hevs.
      constructor; [subst P; other_event|].
      eapply Forall_impl; [exact Hevs|].
      intros e [->| ->]; subst P; cbv beta; [other_event|].
      intros svc text name [= <- _ _]. rewrite Hpath. eauto.
    + intros path contents err evs _ _ Hevs.
      constructor; [subst P; other_event|].
      eapply Forall_impl; [exact Hevs|]. unfold clientFor.
      intros e [->| ->]; subst P; cbv beta; [other_event|].
      destruct (isRegistryPublic (cli.registry c)); other_event.
    + intros p _ _ _ _. subst P; other_event.
    + exists evs. split; [exact Htr|]. split.
      * intros svc text name Hin.
        rewrite List.Forall_forall in Hevs.
        exact (Hevs _ Hin svc text name eq_refl).
      * intros [path Hpath] Hok.
        destruct (run_success_uploads_lifecycle_policy X c path Hpath w)
          as (evs' & Htr' & Hup).
        rewrite Htr in Htr'. apply emitted_unique in Htr'. subst evs'.
        destruct (Hup Hok) as (text & _ & Hin). eauto.
  - intros X region repo text w Hcfg.
    rewrite uploadLifeCyclePolicy_unfold, Hcfg.
    unfold log. cbn [fst trace]. now rewrite <- app_assoc.
Qed.

Lemma lifecycle_policy_private_only_witness :
  isRegistryPublic "public.ecr.aws/acme" = true
  /\ LoadDefaultConfig_err Sample.quiet Sample.emptyWorld "us-east-1" = None
  /\ trace (uploadLifeCyclePolicy Sample.quiet "us-east-1" "app" "{}"
              Sample.emptyWorld).1
     = [EvLoadDefaultConfig "us-east-1";
        EvAPI (ecr_Client {| Region := "us-east-1" |})
              (PutLifecyclePolicyInput "{}" "app")].
Proof.
  split; [reflexivity|]. split; [reflexivity|].
  exact (proj2 lifecycle_policy_private_only
               Sample.quiet "us-east-1" "app" "{}" Sample.emptyWorld eq_refl).
Defined.

(** C7. A create-repository request appears in a run only when push is
    not suppressed and the create-repository flag is set; it then names
    the configured repository and goes to the client the classifier
    selects for the registry host: the public one when the host is
    classified public, the private one otherwise.  createRepository, once
    its checks have passed and the AWS configuration is loaded, sends
    exactly that one request. *)
Theorem create_repository_only_when_requested :
  (forall (X : Externals) (c : cli.Context) (w : World),
      exists evs,
        trace (run X c w).1 = trace w ++ evs
        /\ forall svc name,
            In (EvAPI svc (CreateRepositoryInput name)) evs ->
            cli.no_push c = false
            /\ cli.create_repository c = true
            /\ name = cli.repo c
            /\ svc = (if isRegistryPublic (cli.registry c)
                      then ecrpublic_Client {| Region := cli.region c |}
                      else ecr_Client {| Region := cli.region c |})
            /\ surface svc = (if isRegistryPublic (cli.registry c)
                              then PublicAPI else PrivateAPI))
  /\ (forall (X : Externals) (region repo registry : string) (w : World),
         registry <> "" -> repo <> "" ->
         LoadDefaultConfig_err X w region = None ->
         trace (createRepository X region repo registry w).1
         = trace w ++ [EvLoadDefaultConfig region;
                       EvAPI (if isRegistryPublic registry
                              then ecrpublic_Client {| Region := region |}
                              else ecr_Client {| Region := region |})
                             (CreateRepositoryInput repo)]).
Proof.
  split.
  - intros X c w.
    set (P := fun e : Event =>
                forall svc name,
                  e = EvAPI svc (CreateRepositoryInput name) ->
                  cli.no_push c = false
                  /\ cli.create_repository c = true
                  /\ name = cli.repo c
                  /\ svc = (if isRegistryPublic (cli.registry c)
                            then ecrpublic_Client {| Region := cli.region c |}
                            else ecr_Client {| Region := cli.region c |})
                  /\ surface svc = (if isRegistryPublic (cli.registry c)
                                    then PublicAPI else PrivateAPI)).
    destruct (Emits_run X (Forall P) c) with (w := w) as (evs & Htr & Hevs).
    + intros _. repeat split; subst P; other_event.
    + intros Hg. apply andb_true_iff in Hg as [Hpush Hcreate].
      apply negb_true_iff in Hpush.
      split; [subst P; other_event|].
      constructor; [|constructor]. subst P; cbv beta.
      intros svc name [= <- <-]. unfold clientFor.
      destruct (isRegistryPublic (cli.registry c)); auto.
    + intros path contents err evs _ _ Hevs.
      constructor; [subst P; other_event|].
      eapply Forall_impl; [exact Hevs|].
      intros e [->| ->]; subst P; other_event.
    + intros path contents err evs _ _ Hevs.
      constructor; [subst P; other_event|].
      eapply Forall_impl; [exact Hevs|]. unfold clientFor.
      intros e [->| ->]; subst P; cbv beta; [other_event|].
      destruct (isRegistryPublic (cli.registry c)); other_event.
    + intros p _ _ _ _. subst P; other_event.
    + exists evs. split; [exact Htr|].
      intros svc name Hin.
      rewrite List.Forall_forall in Hevs.
      exact (Hevs _ Hin svc name eq_refl).
  - intros X region repo registry w Hreg Hrepo Hcfg.
    rewrite (createRepository_unfold X _ _ _ w Hreg Hrepo), Hcfg.
    unfold log, clientFor. cbn [fst trace]. now rewrite <- app_assoc.
Qed.

Lemma create_repository_only_when_requested_witness :
  "public.ecr.aws/acme" <> "" /\ "app" <> ""
  /\ LoadDefaultConfig_err Sample.quiet Sample.emptyWorld "us-east-1" = None
  /\ trace (createRepository Sample.quiet "us-east-1" "app"
              "public.ecr.aws/acme" Sample.emptyWorld).1
     = [EvLoadDefaultConfig "us-east-1";
        EvAPI (ecrpublic_Client {| Region := "us-east-1" |})
              (CreateRepositoryInput "app")].
Proof.
  assert (Hreg : "public.ecr.aws/acme" <> "") by discriminate.
  assert (Hrepo : "app" <> "") by discriminate.
  split; [exact Hreg|]. split; [exact Hrepo|]. split; [reflexivity|].
  exact (proj2 create_repository_only_when_requested
               Sample.quiet "us-east-1" "app" "public.ecr.aws/acme"
               Sample.emptyWorld Hreg Hrepo eq_refl).
Defined.

(** C8. The text of every policy request of a run is, byte for byte,
    what ioutil.ReadFile returned for the file the corresponding flag
    names: a put-lifecycle-policy request carries the contents read from
    the lifecycle-policy file, a set-repository-policy request those read
    from the repository-policy file.  A run that returns nil has, for
    each flag that is set, read the file and sent what it read.  A read
    returns the contents the file has; and the two upload functions put
    the text they are given into the request as it is. *)
Theorem policy_text_is_file_contents :
  (forall (X : Externals) (c : cli.Context) (w : World),
      exists evs,
        trace (run X c w).1 = trace w ++ evs
        /\ (forall svc text name,
               In (EvAPI svc (PutLifecyclePolicyInput text name)) evs ->
               exists path,
                 cli.lifecycle_policy c = Some path
                 /\ In (EvReadFile path text None) evs)
        /\ (forall svc text name,
               In (EvAPI svc (SetRepositoryPolicyInput text name)) evs ->
               exists path,
                 cli.repository_policy c = Some path
                 /\ In (EvReadFile path text None) evs)
        /\ (forall path,
               cli.lifecycle_policy c = Some path ->
               (run X c w).2 = Returned None ->
               exists T,
                 In (EvReadFile path T None) evs
                 /\ In (EvAPI (ecr_Client {| Region := cli.region c |})
                              (PutLifecyclePolicyInput T (cli.repo c))) evs)
        /\ (forall path,
               cli.repository_policy c = Some path ->
               (run X c w).2 = Returned None ->
               exists T,
                 In (EvReadFile path T None) evs
                 /\ In (EvAPI (clientFor (cli.registry c)
                                         {| Region := cli.region c |})
                              (SetRepositoryPolicyInput T (cli.repo c))) evs))
  /\ (forall (X : Externals) (path T : string) (w : World),
         files w !! path = Some T ->
         ioutil_ReadFile X path w
         = (log (EvReadFile path T None) w, (T, None)))
  /\ (forall (X : Externals) (region repo T : string) (w : World),
         LoadDefaultConfig_err X w region = None ->
         trace (uploadLifeCyclePolicy X region repo T w).1
         = trace w ++ [EvLoadDefaultConfig region;
                       EvAPI (ecr_Client {| Region := region |})
                             (PutLifecyclePolicyInput T repo)])
  /\ (forall (X : Externals) (region repo registry T : string) (w : World),
         LoadDefaultConfig_err X w region = None ->
         trace (uploadRepositoryPolicy X region repo registry T w).1
         = trace w ++ [EvLoadDefaultConfig region;
                       EvAPI (clientFor registry {| Region := region |})
                             (SetRepositoryPolicyInput T repo)]).
Proof.
  split; [|split; [|split]].
  - intros X c w.
    set (G := fun evs : list Event =>
                (forall svc text name,
                    In (EvAPI svc (PutLifecyclePolicyInput text name)) evs ->
                    exists path,
                      cli.lifecycle_policy c = Some path
                      /\ In (EvReadFile path text None) evs)
                /\ (forall svc text name,
                       In (EvAPI svc (SetRepositoryPolicyInput text name))
                          evs ->
                       exists path,
                         cli.repository_policy c = Some path
                         /\ In (EvReadFile path text None) evs)).
    assert (HG : Compositional G).
    { split.
      - split; intros ? ? ? [].
      - intros evs1 evs2 [H1 H1'] [H2 H2']. split; intros svc text name Hin;
          apply in_app_or in Hin as [Hin|Hin].
        + destruct (H1 _ _ _ Hin) as (path & ? & ?).
          exists path. split; [assumption|]. apply in_or_app. now left.
        + destruct (H2 _ _ _ Hin) as (path & ? & ?).
          exists path. split; [assumption|]. apply in_or_app. now right.
        + destruct (H1' _ _ _ Hin) as (path & ? & ?).
          exists path. split; [assumption|]. apply in_or_app. now left.
        + destruct (H2' _ _ _ Hin) as (path & ? & ?).
          exists path. split; [assumption|]. apply in_or_app. now right. }
    assert (Hone : forall e,
               (forall svc text name,
                   e <> EvAPI svc (PutLifecyclePolicyInput text name)) ->
               (forall svc text name,
                   e <> EvAPI svc (SetRepositoryPolicyInput text name)) ->
               G [e]).
    { intros e Hl Hr. split; intros svc text name [Hin|[]]; exfalso.
      - exact (Hl _ _ _ Hin).
      - exact (Hr _ _ _ Hin). }
    destruct (Emits_run X G c) with (w := w) as (evs & Htr & Hevs).
    + intros _. repeat split; apply Hone; discriminate.
    + intros _. unfold clientFor.
      destruct (isRegistryPublic (cli.registry c));
        split; apply Hone; discriminate.
    + intros path contents err evs Hpath Herr Hevs.
      rewrite List.Forall_forall in Hevs.
      split; intros svc text name [Hin|Hin]; try discriminate Hin.
      * destruct (Hevs _ Hin) as [Heq|Heq]; [discriminate Heq|].
        injection Heq as _ <- _. exists path. split; [exact Hpath|].
        left. destruct err as [e|]; [|reflexivity].
        rewrite Herr in Hin by discriminate. destruct Hin.
      * destruct (Hevs _ Hin) as [Heq|Heq]; discriminate Heq.
    + intros path contents err evs Hpath Herr Hevs.
      rewrite List.Forall_forall in Hevs.
      split; intros svc text name [Hin|Hin]; try discriminate Hin.
      * destruct (Hevs _ Hin) as [Heq|Heq]; [discriminate Heq|].
        unfold clientFor in Heq.
        destruct (isRegistryPublic (cli.registry c)); discriminate Heq.
      * destruct (Hevs _ Hin) as [Heq|Heq]; [discriminate Heq|].
        injection Heq as _ <- _. exists path. split; [exact Hpath|].
        left. destruct err as [e|]; [|reflexivity].
        rewrite Herr in Hin by discriminate. destruct Hin.
    + intros p _ _ _ _. apply Hone; discriminate.
    + exists evs. split; [exact Htr|].
      destruct Hevs as [Hlife Hrepo].
      split; [exact Hlife|]. split; [exact Hrepo|]. split.
      * intros path Hpath Hok.
        destruct (run_success_uploads_lifecycle_policy X c path Hpath w)
          as (evs' & Htr' & Hup).
        rewrite Htr in Htr'. apply emitted_unique in Htr'. subst evs'.
        exact (Hup Hok).
      * intros path Hpath Hok.
        destruct (run_success_uploads_repository_policy X c path Hpath w)
          as (evs' & Htr' & Hup).
        rewrite Htr in Htr'. apply emitted_unique in Htr'. subst evs'.
        exact (Hup Hok).
  - intros X path T w Hfile. unfold ioutil_ReadFile. now rewrite Hfile.
  - intros X region repo T w Hcfg.
    rewrite uploadLifeCyclePolicy_unfold, Hcfg.
    unfold log. cbn [fst trace]. now rewrite <- app_assoc.
  - intros X region repo registry T w Hcfg.
    rewrite uploadRepositoryPolicy_unfold, Hcfg.
    unfold log. cbn [fst trace]. now rewrite <- app_assoc.
Qed.

Lemma policy_text_is_file_contents_witness :
  ({["/policy.json" := "{ T }"]} : gmap string string) !! "/policy.json"
  = Some "{ T }"
  /\ ioutil_ReadFile Sample.quiet "/policy.json"
       {| env := ∅; files := {["/policy.json" := "{ T }"]}; trace := [] |}
     = ({| env := ∅; files := {["/policy.json" := "{ T }"]};
           trace := [EvReadFile "/policy.json" "{ T }" None] |},
        ("{ T }", None))
  /\ trace (uploadRepositoryPolicy Sample.quiet "us-east-1" "app"
              "public.ecr.aws/acme" "{ T }" Sample.emptyWorld).1
     = [EvLoadDefaultConfig "us-east-1";
        EvAPI (ecrpublic_Client {| Region := "us-east-1" |})
              (SetRepositoryPolicyInput "{ T }" "app")].
Proof.
  assert (Hfile : ({["/policy.json" := "{ T }"]} : gmap string string)
                  !! "/policy.json" = Some "{ T }") by reflexivity.
  split; [exact Hfile|].
  destruct policy_text_is_file_contents as (_ & Hread & _ & Hupload).
  split.
  - exact (Hread Sample.quiet "/policy.json" "{ T }"
                 {| env := ∅; files := {["/policy.json" := "{ T }"]};
                    trace := [] |} Hfile).
  - exact (Hupload Sample.quiet "us-east-1" "app" "public.ecr.aws/acme"
                   "{ T }" Sample.emptyWorld eq_refl).
Defined.

(** ** The build invocation *)

(** C9. The builder is only ever invoked with a plugin whose image
    repository is the registry host, a slash, and the repository name,
    and whose cache repository is the registry host, a slash, and the
    cache-repo name; both are filled in whether or not caching is
    enabled.  A run that returns nil has made that invocation, as the
    last thing it did.  For the registry
    "123.dkr.ecr.us-east-1.amazonaws.com/myrepo" and the repository "app"
    the join is "123.dkr.ecr.us-east-1.amazonaws.com/myrepo/app". *)
Theorem build_repo_is_registry_slash_repo :
  (forall (X : Externals) (c : cli.Context) (w : World),
      exists evs,
        trace (run X c w).1 = trace w ++ evs
        /\ (forall p,
               In (EvExec p) evs ->
               kaniko.Repo (kaniko.build p)
               = cli.registry c +:+ "/" +:+ cli.repo c
               /\ kaniko.CacheRepo (kaniko.build p)
                  = cli.registry c +:+ "/" +:+ cli.cache_repo c
               /\ kaniko.EnableCache (kaniko.build p) = cli.enable_cache c)
        /\ ((run X c w).2 = Returned None ->
            exists evs' p, evs = evs' ++ [EvExec p]))
  /\ Fmt.Sprintf "%s/%s" ["123.dkr.ecr.us-east-1.amazonaws.com/myrepo"; "app"]
     = "123.dkr.ecr.us-east-1.amazonaws.com/myrepo/app".
Proof.
  split; [|reflexivity].
  intros X c w.
  set (P := fun e : Event =>
              forall p,
                e = EvExec p ->
                kaniko.Repo (kaniko.build p)
                = cli.registry c +:+ "/" +:+ cli.repo c
                /\ kaniko.CacheRepo (kaniko.build p)
                   = cli.registry c +:+ "/" +:+ cli.cache_repo c
                /\ kaniko.EnableCache (kaniko.build p) = cli.enable_cache c).
  destruct (run_success_invokes_builder X c w) as (evs & Htr & Hlast).
  destruct (Emits_run X (Forall P) c) with (w := w) as (evs' & Htr' & Hevs).
  - intros _. repeat split; subst P; other_event.
  - intros _. split; subst P; other_event.
  - intros path contents err evs0 _ _ Hevs.
    constructor; [subst P; other_event|].
    eapply Forall_impl; [exact Hevs|].
    intros e [->| ->]; subst P; other_event.
  - intros path contents err evs0 _ _ Hevs.
    constructor; [subst P; other_event|].
    eapply Forall_impl; [exact Hevs|].
    intros e [->| ->]; subst P; other_event.
  - intros p Hrepo Hcache Hen _.
    constructor; [|constructor]. subst P; cbv beta.
    intros p' [= <-]. rewrite Hrepo, Hcache, Hen, !Sprintf_join. auto.
  - rewrite Htr in Htr'. apply emitted_unique in Htr'. subst evs'.
    exists evs. split; [exact Htr|]. split; [|exact Hlast].
    intros p Hin. rewrite List.Forall_forall in Hevs.
    exact (Hevs _ Hin p eq_refl).
Qed.

Lemma build_repo_is_registry_slash_repo_witness :
  (run Sample.quiet
       (Sample.ctx Sample.privateRegistry true false "" "" None None)
       Sample.emptyWorld).2 = Returned None
  /\ exists p,
      In (EvExec p)
         (trace (run Sample.quiet
                     (Sample.ctx Sample.privateRegistry true false "" ""
                                 None None)
                     Sample.emptyWorld).1)
      /\ kaniko.Repo (kaniko.build p)
         = "123.dkr.ecr.us-east-1.amazonaws.com/myrepo/app"
      /\ kaniko.CacheRepo (kaniko.build p)
         = "123.dkr.ecr.us-east-1.amazonaws.com/myrepo/cache"
      /\ kaniko.EnableCache (kaniko.build p) = false.
Proof.
  assert (Hok : (run Sample.quiet
                     (Sample.ctx Sample.privateRegistry true false "" ""
                                 None None)
                     Sample.emptyWorld).2 = Returned None) by reflexivity.
  split; [exact Hok|].
  destruct (proj1 build_repo_is_registry_slash_repo
                  Sample.quiet
                  (Sample.ctx Sample.privateRegistry true false "" "" None None)
                  Sample.emptyWorld) as (evs & Htr & Hfields & Hlast).
  change (trace Sample.emptyWorld ++ evs) with evs in Htr.
  destruct (Hlast Hok) as (evs' & p & Hevs).
  assert (Hin : In (EvExec p) evs).
  { rewrite Hevs. apply in_or_app. right. now left. }
  exists p. rewrite Htr. split; [exact Hin|].
  exact (Hfields p Hin).
Defined.

(** * Further properties of main.go *)

(** ** setupECRAuth: exports, failures, frame *)

Lemma guard_both_keys (accessKey secretKey : string) :
  accessKey <> "" -> secretKey <> "" ->
  negb (String.eqb accessKey "") && negb (String.eqb secretKey "") = true.
Proof.
  intros Ha Hs. now rewrite (eqb_empty_false _ Ha), (eqb_empty_false _ Hs).
Qed.

(** X1. With a registry and both keys given, a call of setupECRAuth that
    succeeds has exported the two keys under AWS_ACCESS_KEY_ID and
    AWS_SECRET_ACCESS_KEY, in that order, and then written the
    descriptor; and the call does succeed when neither export nor the
    write fails. *)
Theorem setupECRAuth_exports_both_keys :
  forall (X : Externals) (accessKey secretKey registry : string) (w : World),
    registry <> "" -> accessKey <> "" -> secretKey <> "" ->
    let w' := (setupECRAuth X accessKey secretKey registry w).1 in
    let err := (setupECRAuth X accessKey secretKey registry w).2 in
    let descriptor := credHelperDescriptor ["public.ecr.aws"; registry] in
    (err = None ->
     env w' = <["AWS_SECRET_ACCESS_KEY" := secretKey]>
                (<["AWS_ACCESS_KEY_ID" := accessKey]> (env w))
     /\ env w' !! "AWS_ACCESS_KEY_ID" = Some accessKey
     /\ env w' !! "AWS_SECRET_ACCESS_KEY" = Some secretKey
     /\ files w' = <["/kaniko/.docker/config.json" := descriptor]> (files w)
     /\ trace w'
        = trace w ++ [EvSetenv "AWS_ACCESS_KEY_ID" accessKey;
                      EvSetenv "AWS_SECRET_ACCESS_KEY" secretKey;
                      EvWriteFile "/kaniko/.docker/config.json"
                                  descriptor 420])
    /\ ((forall w0 key value, Setenv_err X w0 key value = None) ->
        (forall w0 filename data, WriteFile_err X w0 filename data = None) ->
        err = None).
Proof.
  intros X accessKey secretKey registry w Hr Ha Hs w' err descriptor.
  subst w' err. rewrite (setupECRAuth_unfold X _ _ _ w Hr).
  rewrite (guard_both_keys _ _ Ha Hs).
  change (credHelperDescriptor [ecrPublicDomain; registry]) with descriptor.
  change dockerConfigPath with "/kaniko/.docker/config.json".
  change accessKeyEnv with "AWS_ACCESS_KEY_ID".
  change secretKeyEnv with "AWS_SECRET_ACCESS_KEY".
  unfold os_Setenv, ioutil_WriteFile, log. cbn [env files trace].
  split.
  - destruct (Setenv_err X w _ _); [discriminate|].
    destruct (Setenv_err X _ _ _); [discriminate|].
    destruct (WriteFile_err X _ _ _); [discriminate|].
    cbn [fst snd env files trace]. intros _.
    rewrite <- !app_assoc. repeat split.
    + rewrite lookup_insert_ne by discriminate. apply lookup_insert_eq.
    + apply lookup_insert_eq.
  - intros Hset Hwrite. now rewrite !Hset, Hwrite.
Qed.

Lemma setupECRAuth_exports_both_keys_witness :
  Sample.privateRegistry <> "" /\ "AKIAEXAMPLE" <> "" /\ "secret" <> ""
  /\ env (setupECRAuth Sample.quiet "AKIAEXAMPLE" "secret"
            Sample.privateRegistry Sample.emptyWorld).1
     !! "AWS_SECRET_ACCESS_KEY" = Some "secret".
Proof.
  assert (Hr : Sample.privateRegistry <> "") by discriminate.
  assert (Ha : "AKIAEXAMPLE" <> "") by discriminate.
  assert (Hs : "secret" <> "") by discriminate.
  split; [exact Hr|]. split; [exact Ha|]. split; [exact Hs|].
  destruct (setupECRAuth_exports_both_keys
              Sample.quiet "AKIAEXAMPLE" "secret" Sample.privateRegistry
              Sample.emptyWorld Hr Ha Hs) as (Hok & Hlive).
  assert (Hnil : (setupECRAuth Sample.quiet "AKIAEXAMPLE" "secret"
                    Sample.privateRegistry Sample.emptyWorld).2 = None).
  { apply Hlive; reflexivity. }
  exact (proj1 (proj2 (proj2 (Hok Hnil)))).
Defined.

(** X2. An export that fails ends setupECRAuth before the descriptor is
    written.  When the export of the access key fails, nothing else is
    asked of the outside and the environment and the files are as they
    were.  When the export of the secret key fails, the access key stays
    exported.  Either way the error of os.Setenv is returned wrapped, with
    a message that names the variable. *)
Theorem setupECRAuth_export_failure_stops :
  forall (X : Externals) (accessKey secretKey registry : string) (w : World)
         (e : goerror),
    registry <> "" -> accessKey <> "" -> secretKey <> "" ->
    (Setenv_err X w "AWS_ACCESS_KEY_ID" accessKey = Some e ->
     setupECRAuth X accessKey secretKey registry w
     = ({| env := env w; files := files w;
           trace := trace w ++ [EvSetenv "AWS_ACCESS_KEY_ID" accessKey] |},
        Some (Wrapped "failed to set AWS_ACCESS_KEY_ID environment variable"
                      e)))
    /\ (Setenv_err X w "AWS_ACCESS_KEY_ID" accessKey = None ->
        Setenv_err X (os_Setenv X "AWS_ACCESS_KEY_ID" accessKey w).1
                   "AWS_SECRET_ACCESS_KEY" secretKey = Some e ->
        setupECRAuth X accessKey secretKey registry w
        = ({| env := <["AWS_ACCESS_KEY_ID" := accessKey]> (env w);
              files := files w;
              trace := trace w
                       ++ [EvSetenv "AWS_ACCESS_KEY_ID" accessKey;
                           EvSetenv "AWS_SECRET_ACCESS_KEY" secretKey] |},
           Some (Wrapped
                   "failed to set AWS_SECRET_ACCESS_KEY environment variable"
                   e))).
Proof.
  intros X accessKey secretKey registry w e Hr Ha Hs.
  rewrite (setupECRAuth_unfold X _ _ _ w Hr).
  rewrite (guard_both_keys _ _ Ha Hs).
  change accessKeyEnv with "AWS_ACCESS_KEY_ID".
  change secretKeyEnv with "AWS_SECRET_ACCESS_KEY".
  split.
  - intros Hfail. unfold os_Setenv, log. now rewrite Hfail.
  - intros Hok Hfail. unfold os_Setenv, log in Hfail |- *.
    rewrite Hok in Hfail |- *. cbn [fst env files trace] in Hfail |- *.
    rewrite Hfail. cbn [env files trace]. now rewrite <- app_assoc.
Qed.

Lemma setupECRAuth_export_failure_stops_witness :
  Sample.privateRegistry <> "" /\ "AKIAEXAMPLE" <> "" /\ "secret" <> ""
  /\ Setenv_err (Failing.setenv "AWS_SECRET_ACCESS_KEY") Sample.emptyWorld
       "AWS_ACCESS_KEY_ID" "AKIAEXAMPLE" = None
  /\ env (setupECRAuth (Failing.setenv "AWS_SECRET_ACCESS_KEY")
            "AKIAEXAMPLE" "secret" Sample.privateRegistry
            Sample.emptyWorld).1
     = <["AWS_ACCESS_KEY_ID" := "AKIAEXAMPLE"]> ∅
  /\ files (setupECRAuth (Failing.setenv "AWS_SECRET_ACCESS_KEY")
              "AKIAEXAMPLE" "secret" Sample.privateRegistry
              Sample.emptyWorld).1
     = ∅.
Proof.
  assert (Hr : Sample.privateRegistry <> "") by discriminate.
  assert (Ha : "AKIAEXAMPLE" <> "") by discriminate.
  assert (Hs : "secret" <> "") by discriminate.
  split; [exact Hr|]. split; [exact Ha|]. split; [exact Hs|].
  split; [reflexivity|].
  destruct (setupECRAuth_export_failure_stops
              (Failing.setenv "AWS_SECRET_ACCESS_KEY")
              "AKIAEXAMPLE" "secret" Sample.privateRegistry
              Sample.emptyWorld (ErrorString "setenv: invalid argument")
              Hr Ha Hs) as (_ & Hsecond).
  rewrite (Hsecond eq_refl eq_refl). split; reflexivity.
Defined.

(** X3. Whatever its arguments and however it ends, setupECRAuth leaves
    every environment variable other than AWS_ACCESS_KEY_ID and
    AWS_SECRET_ACCESS_KEY, and every file other than
    /kaniko/.docker/config.json, as it found them. *)
Theorem setupECRAuth_frame :
  forall (X : Externals) (accessKey secretKey registry : string) (w : World),
    let w' := (setupECRAuth X accessKey secretKey registry w).1 in
    (forall key,
        key <> "AWS_ACCESS_KEY_ID" -> key <> "AWS_SECRET_ACCESS_KEY" ->
        env w' !! key = env w !! key)
    /\ (forall filename,
           filename <> "/kaniko/.docker/config.json" ->
           files w' !! filename = files w !! filename).
Proof.
  intros X accessKey secretKey registry w w'. subst w'.
  destruct (String.eqb_spec registry "") as [->|Hr].
  - assert (H : setupECRAuth X accessKey secretKey "" w
                = (w, Some (ErrorString "registry must be specified")))
      by reflexivity.
    rewrite H. auto.
  - rewrite (setupECRAuth_unfold X _ _ _ w Hr).
    change accessKeyEnv with "AWS_ACCESS_KEY_ID".
    change secretKeyEnv with "AWS_SECRET_ACCESS_KEY".
    change dockerConfigPath with "/kaniko/.docker/config.json".
    setup_cases X accessKey secretKey w.
    all: split; [intros key Hk1 Hk2|intros filename Hf];
      rewrite ?lookup_insert_ne by congruence; reflexivity.
Qed.

(** ** createRepository: checks, frame, errors *)

Lemma createRepository_empty_repo (X : Externals)
      (region registry : string) (w : World) :
  registry <> "" ->
  createRepository X region "" registry w
  = (w, Some (ErrorString "repo must be specified")).
Proof.
  intros Hreg. unfold createRepository. unproc.
  now rewrite (eqb_empty_false _ Hreg).
Qed.

(** X4. createRepository checks its configuration before it asks
    anything of the outside: an empty registry is refused first, whatever
    the repository, and then an empty repository; in both cases the world
    is left as it was. *)
Theorem createRepository_checks_configuration_first :
  forall (X : Externals) (region repo registry : string) (w : World),
    (registry = "" ->
     createRepository X region repo registry w
     = (w, Some (ErrorString "registry must be specified")))
    /\ (registry <> "" -> repo = "" ->
        createRepository X region repo registry w
        = (w, Some (ErrorString "repo must be specified"))).
Proof.
  intros X region repo registry w. split.
  - intros ->. reflexivity.
  - intros Hreg ->. now apply createRepository_empty_repo.
Qed.

(** X5. createRepository never changes the environment or the files, and
    asks at most two things of the outside: the AWS configuration of the
    region, and then one create-repository request on the client the
    classifier selects.  When the configuration cannot be loaded no
    request is sent and the error is returned wrapped. *)
Theorem createRepository_frame :
  forall (X : Externals) (region repo registry : string) (w : World),
    let r := createRepository X region repo registry w in
    env r.1 = env w
    /\ files r.1 = files w
    /\ (trace r.1 = trace w
        \/ trace r.1 = trace w ++ [EvLoadDefaultConfig region]
        \/ trace r.1
           = trace w ++ [EvLoadDefaultConfig region;
                         EvAPI (clientFor registry {| Region := region |})
                               (CreateRepositoryInput repo)])
    /\ (forall e,
           registry <> "" -> repo <> "" ->
           LoadDefaultConfig_err X w region = Some e ->
           r = ({| env := env w; files := files w;
                   trace := trace w ++ [EvLoadDefaultConfig region] |},
                Some (Wrapped "failed to load aws config" e))).
Proof.
  intros X region repo registry w r. subst r.
  destruct (String.eqb_spec registry "") as [->|Hreg].
  { assert (H : createRepository X region repo "" w
                = (w, Some (ErrorString "registry must be specified")))
      by reflexivity.
    rewrite H. cbn [fst]. repeat split; auto. intros e Hne. now destruct Hne. }
  destruct (String.eqb_spec repo "") as [->|Hrepo].
  { rewrite (createRepository_empty_repo
               X region registry w Hreg).
    cbn [fst]. repeat split; auto. intros e _ Hne. now destruct Hne. }
  rewrite (createRepository_unfold X _ _ _ w Hreg Hrepo).
  destruct (LoadDefaultConfig_err X w region) as [e|]; unfold log;
    cbn [fst env files trace].
  - repeat split; auto. intros e' _ _ [= <-]. reflexivity.
  - rewrite <- app_assoc. repeat split; auto. discriminate.
Qed.

(** X6. Once its checks have passed and the AWS configuration is loaded,
    createRepository returns an error exactly when errors.As finds, in
    the error of the create-repository call, an API error whose code is
    not RepositoryAlreadyExistsException.  The error returned is that of
    the call, wrapped: its text is "failed to create repository: "
    followed by the text of the call's error, and errors.As still finds
    the same code in it.  An error of the call in which errors.As finds
    no API error is not returned. *)
Theorem createRepository_fails_iff_other_api_code :
  forall (X : Externals) (region repo registry : string) (w : World),
    registry <> "" -> repo <> "" ->
    LoadDefaultConfig_err X w region = None ->
    let createErr :=
      API_err X (log (EvLoadDefaultConfig region) w)
              (clientFor registry {| Region := region |})
              (CreateRepositoryInput repo) in
    let result := (createRepository X region repo registry w).2 in
    (result <> None
     <-> exists code,
        Errors.As createErr = Some code
        /\ code <> "RepositoryAlreadyExistsException")
    /\ (forall e',
           result = Some e' ->
           exists e0,
             createErr = Some e0
             /\ e' = Wrapped "failed to create repository" e0
             /\ Errors.As (Some e') = Errors.As createErr
             /\ Error e' = "failed to create repository: " +:+ Error e0)
    /\ (Errors.As createErr = None -> result = None).
Proof.
  intros X region repo registry w Hreg Hrepo Hcfg createErr result.
  subst result. rewrite (createRepository_unfold X _ _ _ w Hreg Hrepo), Hcfg.
  fold createErr. cbn [snd].
  destruct createErr as [e0|]; cbn [Errors.As Errors.Wrap].
  - destruct (Errors.AsAPIError e0) as [code|] eqn:Hcode.
    + destruct (String.eqb_spec code "RepositoryAlreadyExistsException")
        as [->|Hne].
      * split; [|split; [discriminate|discriminate]].
        split; [congruence|]. intros (code & [= <-] & Hne). congruence.
      * split; [|split; [|discriminate]].
        -- split; [eauto|discriminate].
        -- intros e' [= <-]. exists e0. cbn [Errors.AsAPIError Error].
           auto.
    + split; [|split; [discriminate|reflexivity]].
      split; [congruence|]. intros (code & [=] & _).
  - split; [|split; [discriminate|reflexivity]].
    split; [congruence|]. intros (code & [=] & _).
Qed.

Lemma createRepository_fails_iff_other_api_code_witness :
  Sample.privateRegistry <> "" /\ "app" <> ""
  /\ LoadDefaultConfig_err (Sample.answering Sample.accessDenied)
       Sample.emptyWorld "us-east-1" = None
  /\ exists e',
      (createRepository (Sample.answering Sample.accessDenied)
         "us-east-1" "app" Sample.privateRegistry Sample.emptyWorld).2
      = Some e'
      /\ Error e'
         = "failed to create repository: " +:+ Error Sample.accessDenied.
Proof.
  assert (Hreg : Sample.privateRegistry <> "") by discriminate.
  assert (Hrepo : "app" <> "") by discriminate.
  split; [exact Hreg|]. split; [exact Hrepo|]. split; [reflexivity|].
  destruct (createRepository_fails_iff_other_api_code
              (Sample.answering Sample.accessDenied)
              "us-east-1" "app" Sample.privateRegistry Sample.emptyWorld
              Hreg Hrepo eq_refl) as (_ & Hshape & _).
  eexists. split; [reflexivity|].
  destruct (Hshape _ eq_refl) as (e0 & [= <-] & _ & _ & Htext).
  exact Htext.
Defined.

(** ** The upload functions: frame and errors *)

(** X7. uploadLifeCyclePolicy and uploadRepositoryPolicy never change the
    environment or the files.  When the AWS configuration cannot be
    loaded they send nothing and return that error wrapped; otherwise
    they return the error of their one request as it is, nil or not:
    unlike createRepository they tolerate no error code. *)
Theorem uploads_pass_on_the_request_error :
  (forall (X : Externals) (region repo text : string) (w : World),
      let r := uploadLifeCyclePolicy X region repo text w in
      env r.1 = env w
      /\ files r.1 = files w
      /\ (LoadDefaultConfig_err X w region = None ->
          r.2 = API_err X (log (EvLoadDefaultConfig region) w)
                        (ecr_Client {| Region := region |})
                        (PutLifecyclePolicyInput text repo))
      /\ (forall e,
             LoadDefaultConfig_err X w region = Some e ->
             r.2 = Some (Wrapped "failed to load aws config" e)
             /\ trace r.1 = trace w ++ [EvLoadDefaultConfig region]))
  /\ (forall (X : Externals) (region repo registry text : string) (w : World),
         let r := uploadRepositoryPolicy X region repo registry text w in
         env r.1 = env w
         /\ files r.1 = files w
         /\ (LoadDefaultConfig_err X w region = None ->
             r.2 = API_err X (log (EvLoadDefaultConfig region) w)
                           (if isRegistryPublic registry
                            then ecrpublic_Client {| Region := region |}
                            else ecr_Client {| Region := region |})
                           (SetRepositoryPolicyInput text repo))
         /\ (forall e,
                LoadDefaultConfig_err X w region = Some e ->
                r.2 = Some (Wrapped "failed to load aws config" e)
                /\ trace r.1 = trace w ++ [EvLoadDefaultConfig region])).
Proof.
  split.
  - intros X region repo text w r. subst r.
    rewrite uploadLifeCyclePolicy_unfold.
    destruct (LoadDefaultConfig_err X w region) as [e|]; unfold log;
      cbn [fst snd env files trace];
      (split; [reflexivity|]); (split; [reflexivity|]); split;
      try discriminate; try reflexivity.
    intros e' [= <-]. auto.
  - intros X region repo registry text w r. subst r.
    rewrite uploadRepositoryPolicy_unfold. unfold clientFor.
    destruct (LoadDefaultConfig_err X w region) as [e|]; unfold log;
      cbn [fst snd env files trace];
      (split; [reflexivity|]); (split; [reflexivity|]); split;
      try discriminate; try reflexivity.
    intros e' [= <-]. auto.
Qed.

(** ** run: the order of its requests *)

Ltac emits_with tac :=
  repeat first
    [ apply Emits_setupECRAuth; [compositional|tac|tac|tac]
    | apply Emits_createRepository; [compositional|tac|tac]
    | apply Emits_uploadLifeCyclePolicy; [compositional|tac|tac]
    | apply Emits_uploadRepositoryPolicy; [compositional|tac|tac]
    | apply Emits_ioutil_ReadFile; intros; tac
    | apply Emits_plugin_Exec; tac
    | emits_step ].

(** ** run: how it ends *)

Lemma EmitsR_conj {A} (G1 G2 : list Event -> A -> Prop)
      (f : World -> World * A) :
  EmitsR G1 f -> EmitsR G2 f -> EmitsR (fun evs a => G1 evs a /\ G2 evs a) f.
Proof.
  intros H1 H2 w.
  destruct (H1 w) as (evs & Htr & Hevs).
  destruct (H2 w) as (evs' & Htr' & Hevs').
  rewrite Htr in Htr'. apply emitted_unique in Htr'. subst evs'.
  exists evs. auto.
Qed.

(** A step whose events may be put in front of what the later steps
    establish. *)
Lemma EmitsR_bind_front {R A B} (G1 : list Event -> R + A -> Prop)
      (G : list Event -> R + B -> Prop) (front : list Event -> Prop)
      (m : Proc R A) (k : A -> Proc R B) :
  (forall evs1 evs2 res, front evs1 -> G evs2 res -> G (evs1 ++ evs2) res) ->
  EmitsR G1 m ->
  (forall evs1 r, G1 evs1 (inl r) -> G evs1 (inl r)) ->
  (forall evs1 a, G1 evs1 (inr a) -> front evs1) ->
  (forall a, EmitsR G (k a)) ->
  EmitsR G (bind m k).
Proof.
  intros Hfront Hm Hret Hgo Hk.
  eapply EmitsR_bind; [exact Hm|exact Hret|].
  intros evs1 a H1. eapply EmitsR_mono; [|apply Hk].
  intros evs2 res. apply Hfront. exact (Hgo _ _ H1).
Qed.

Lemma ioutil_ReadFile_cases (X : Externals) (filename : string)
      (w : World) :
  (exists contents,
      files w !! filename = Some contents
      /\ ioutil_ReadFile X filename w
         = (log (EvReadFile filename contents None) w, (contents, None)))
  \/ (files w !! filename = None
      /\ ioutil_ReadFile X filename w
         = (log (EvReadFile filename ""
                   (Some (ReadFile_err X w filename))) w,
            ("", Some (ReadFile_err X w filename)))).
Proof.
  unfold ioutil_ReadFile.
  destruct (files w !! filename); cbn [fst snd]; eauto.
Qed.

Lemma Sprintf_upload_error (text : string) :
  Fmt.Sprintf "error uploading ECR lifecycle policy: %v" [text]
  = "error uploading ECR lifecycle policy: " +:+ text.
Proof. cbn [Fmt.Sprintf]. now rewrite string_app_empty_r. Qed.

(** The errors of the two provisioners are built by fmt.Errorf and
    errors.Wrap: none of them has an ExitCode method. *)
Lemma setupECRAuth_error_no_exit_code (X : Externals)
      (accessKey secretKey registry : string) (w : World) (e : goerror) :
  (setupECRAuth X accessKey secretKey registry w).2 = Some e ->
  isExitCoder e = false.
Proof.
  destruct (String.eqb_spec registry "") as [->|Hreg].
  - now intros [= <-].
  - rewrite (setupECRAuth_unfold X _ _ _ w Hreg).
    setup_cases X accessKey secretKey w; now intros [= <-].
Qed.

Lemma createRepository_error_no_exit_code (X : Externals)
      (region repo registry : string) (w : World) (e : goerror) :
  (createRepository X region repo registry w).2 = Some e ->
  isExitCoder e = false.
Proof.
  destruct (String.eqb_spec registry "") as [->|Hreg];
    [now intros [= <-]|].
  destruct (String.eqb_spec repo "") as [->|Hrepo].
  { rewrite (createRepository_empty_repo X region registry w Hreg).
    now intros [= <-]. }
  rewrite (createRepository_unfold X _ _ _ w Hreg Hrepo).
  destruct (LoadDefaultConfig_err X w region) as [e0|];
    [now intros [= <-]|].
  cbn [snd].
  destruct (API_err X _ _ _) as [e0|]; cbn [Errors.As Errors.Wrap];
    [|discriminate].
  destruct (Errors.AsAPIError e0) as [code|]; [|discriminate].
  destruct (String.eqb code "RepositoryAlreadyExistsException");
    [discriminate|now intros [= <-]].
Qed.

Section RunEnds.

Context (X : Externals).

(** A policy block never invokes the builder; it goes on, or it exits the
    process with status 1: with the text of the read error when the file
    cannot be read, with the message of the block when the upload
    fails. *)
Lemma EmitsR_policy_block_exit (flag : option string)
      (upload : string -> World -> World * error) (msg : goerror -> string) :
  (forall contents,
      Emits (Forall (fun e => isExec e = false)) (upload contents)) ->
  EmitsR (fun evs res =>
            Forall (fun e => isExec e = false) evs
            /\ (res = inr tt
                \/ exists path text,
                    flag = Some path
                    /\ res = inl (Exited 1 text)
                    /\ ((exists contents e,
                            In (EvReadFile path contents (Some e)) evs
                            /\ text = Error e)
                        \/ exists e, text = msg e)))
         (if_set flag (fun path =>
            let* (contents, err) := call (ioutil_ReadFile X path) in
            if_err err (fun e => logrus_Fatal (Error e)) ;;
            let* err := call (upload contents) in
            if_err err (fun e => logrus_Fatal (msg e)))).
Proof.
  intros Hup w. destruct flag as [path|]; unfold if_set.
  - unfold bind, call, if_err, logrus_Fatal, return_, ret.
    destruct (ioutil_ReadFile_cases X path w)
      as [(contents & _ & ->)|(_ & ->)]; cbv beta iota.
    + destruct (Hup contents (log (EvReadFile path contents None) w))
        as (evs & Htr & Hevs).
      destruct (upload contents _) as [w1 [e|]]; cbn [fst snd] in *;
        (exists (EvReadFile path contents None :: evs); split;
         [rewrite Htr; unfold log; cbn [trace]; now rewrite <- app_assoc|]);
        (split; [now constructor|]); eauto 10.
    + eexists. split; [reflexivity|]. cbn [snd].
      split; [repeat constructor|]. right.
      exists path, (Error (ReadFile_err X w path)).
      split; [reflexivity|]. split; [reflexivity|]. left.
      exists "", (ReadFile_err X w path). split; [now left|reflexivity].
  - exists []. cbn. rewrite app_nil_r. auto.
Qed.

(** The two ways a run can take: it invokes the builder, once and last,
    and returns; or it ends before, with the error of a provisioner
    returned or with an exit from a policy block. *)
Lemma run_ends (c : cli.Context) :
  EmitsR (fun evs out =>
            (exists before p err,
                evs = before ++ [EvExec p]
                /\ Forall (fun e => isExec e = false) before
                /\ out = Returned err
                /\ carriesFlags c p
                /\ kaniko.Repo (kaniko.build p)
                   = cli.registry c +:+ "/" +:+ cli.repo c
                /\ kaniko.CacheRepo (kaniko.build p)
                   = cli.registry c +:+ "/" +:+ cli.cache_repo c
                /\ kaniko.DigestFile (kaniko.build p) = defaultDigestFile)
            \/ (Forall (fun e => isExec e = false) evs
                /\ ((exists e,
                       out = Returned (Some e) /\ isExitCoder e = false)
                    \/ exists path text,
                        (cli.lifecycle_policy c = Some path
                         \/ cli.repository_policy c = Some path)
                        /\ out = Exited 1 text
                        /\ ((exists contents e,
                                In (EvReadFile path contents (Some e)) evs
                                /\ text = Error e)
                            \/ exists e,
                                text = "error uploading ECR lifecycle policy: "
                                       +:+ Error e))))
         (run X c).
Proof.
  unfold run. cbv zeta. apply EmitsR_func.
  match goal with
  | |- EmitsR ?G0 _ => set (G := G0)
  end.
  assert (Hfront : forall evs1 evs2 res,
             Forall (fun e => isExec e = false) evs1 ->
             G evs2 res -> G (evs1 ++ evs2) res).
  { intros evs1 evs2 res H1 [(before & p & err & -> & Hb & Hrest)|[H2 Hout]].
    - left. exists (evs1 ++ before), p, err. rewrite app_assoc.
      split; [reflexivity|]. split; [now apply Forall_app|exact Hrest].
    - right. split; [now apply Forall_app|].
      destruct Hout as [Hout|(path & text & Hpath & Hout & Htext)];
        [now left|right].
      exists path, text. split; [exact Hpath|]. split; [exact Hout|].
      destruct Htext as [(contents & e & Hin & ->)|Htext]; [left|now right].
      exists contents, e. split; [|reflexivity]. apply in_or_app. now right. }
  assert (Hcall : forall (g : bool) (f : World -> World * error)
                         (k : unit -> Proc Outcome Outcome),
             Emits (Forall (fun e => isExec e = false)) f ->
             (forall w e, (f w).2 = Some e -> isExitCoder e = false) ->
             (forall a, EmitsR G (k a)) ->
             EmitsR G (bind (when g (let* err := call f in
                                     if_err err (fun _ =>
                                       return_ (Returned err)))) k)).
  { intros g f k Hf Herr Hk.
    eapply EmitsR_bind_front
      with (front := Forall (fun e => isExec e = false));
      [exact Hfront
      |apply EmitsR_guarded_call
         with (Gf := fun evs err =>
                       Forall (fun e => isExec e = false) evs
                       /\ forall e, err = Some e -> isExitCoder e = false);
       apply EmitsR_conj; [apply Emits_EmitsR, Hf|]
      | | |exact Hk]; cbv beta.
    - intros w. exists (drop (length (trace w)) (trace (f w).1)).
      destruct (Hf w) as (evs & Htr & _). rewrite Htr.
      rewrite drop_app_length. split; [reflexivity|]. apply Herr.
    - intros evs1 r. destruct g.
      + intros ([e|] & [Hevs He] & [= ->]). right.
        split; [exact Hevs|]. left. exists e. auto.
      + intros [_ [=]].
    - intros evs1 a. destruct g.
      + now intros (err & [Hevs _] & _).
      + intros [-> _]. constructor. }
  apply Hcall;
    [emits_with ltac:(repeat constructor)
    |apply setupECRAuth_error_no_exit_code|intros _].
  apply Hcall;
    [emits_with ltac:(repeat constructor)
    |apply createRepository_error_no_exit_code|intros _].
  eapply EmitsR_bind_front
    with (front := Forall (fun e => isExec e = false));
    [exact Hfront
    |apply EmitsR_policy_block_exit; intros;
     emits_with ltac:(repeat constructor)
    | | |intros _]; cbv beta.
  { intros evs1 r (Hevs & [[=]|(path & text & Hpath & [= ->] & Htext)]).
    right. split; [exact Hevs|]. right. exists path, text.
    split; [auto|]. split; [reflexivity|].
    destruct Htext as [Hread|(e & ->)]; [now left|right].
    exists e. apply Sprintf_upload_error. }
  { now intros evs1 a (Hevs & _). }
  eapply EmitsR_bind_front
    with (front := Forall (fun e => isExec e = false));
    [exact Hfront
    |apply EmitsR_policy_block_exit; intros;
     emits_with ltac:(repeat constructor)
    | | |intros _]; cbv beta.
  { intros evs1 r (Hevs & [[=]|(path & text & Hpath & [= ->] & Htext)]).
    right. split; [exact Hevs|]. right. exists path, text.
    split; [auto|]. split; [reflexivity|].
    destruct Htext as [Hread|(e & ->)]; [now left|right].
    exists e. apply Sprintf_upload_error. }
  { now intros evs1 a (Hevs & _). }
  eapply EmitsR_mono; [|apply EmitsR_exec_step].
  intros evs res (err & -> & ->). left.
  eexists [], _, err. split; [reflexivity|]. split; [constructor|].
  split; [reflexivity|]. cbn [kaniko.build kaniko.Repo kaniko.CacheRepo
                              kaniko.DigestFile].
  rewrite !Sprintf_join. repeat split.
Qed.

End RunEnds.

Lemma not_exec_not_in (l : list Event) (p : kaniko.Plugin) :
  Forall (fun e => isExec e = false) l -> ~ In (EvExec p) l.
Proof.
  intros Hall Hin. rewrite List.Forall_forall in Hall.
  specialize (Hall _ Hin). discriminate Hall.
Qed.

(** X8. A run invokes the builder at most once, and as the last thing it
    does; a run that has invoked it returns what came of it and does not
    exit.  A run that has not invoked the builder has ended early: it
    has returned an error, or it has exited the process with status 1. *)
Theorem builder_invoked_once_and_last :
  forall (X : Externals) (c : cli.Context) (w : World),
    exists evs,
      trace (run X c w).1 = trace w ++ evs
      /\ (forall p,
             In (EvExec p) evs ->
             exists before err,
               evs = before ++ [EvExec p]
               /\ (forall p', ~ In (EvExec p') before)
               /\ (run X c w).2 = Returned err)
      /\ ((forall p, ~ In (EvExec p) evs) ->
          (exists e, (run X c w).2 = Returned (Some e))
          \/ exists text, (run X c w).2 = Exited 1 text).
Proof.
  intros X c w. destruct (run_ends X c w) as (evs & Htr & Hends).
  exists evs. split; [exact Htr|].
  destruct Hends as [(before & p0 & err & -> & Hb & -> & _)|[Hall Hout]].
  - split.
    + intros p Hin. apply in_app_or in Hin as [Hin|[[= <-]|[]]].
      * now apply not_exec_not_in in Hin.
      * exists before, err. split; [reflexivity|]. split; [|reflexivity].
        intros p'. now apply not_exec_not_in.
    + intros Hno. exfalso. apply (Hno p0), in_or_app. right. now left.
  - split.
    + intros p Hin. now apply not_exec_not_in in Hin.
    + intros _.
      destruct Hout as [(e & -> & _)|(path & text & _ & -> & _)]; eauto.
Qed.

(** X9. The plugin a run hands to the builder carries the flags one to
    one, writes its digest to /kaniko/digest-file, and its artifact
    record describes the image that is built: the repository of the
    build is the registry of the artifact, a slash, and the repository
    of the artifact, and both carry the same tags. *)
Theorem plugin_carries_the_flags :
  forall (X : Externals) (c : cli.Context) (w : World),
    exists evs,
      trace (run X c w).1 = trace w ++ evs
      /\ forall p,
          In (EvExec p) evs ->
          carriesFlags c p
          /\ kaniko.DigestFile (kaniko.build p) = "/kaniko/digest-file"
          /\ kaniko.Repo (kaniko.build p)
             = kaniko.Art.Registry (kaniko.artifact p) +:+ "/"
               +:+ kaniko.Art.Repo (kaniko.artifact p)
          /\ kaniko.Tags (kaniko.build p)
             = kaniko.Art.Tags (kaniko.artifact p).
Proof.
  intros X c w. destruct (run_ends X c w) as (evs & Htr & Hends).
  exists evs. split; [exact Htr|]. intros p Hin.
  destruct Hends as [(before & p0 & err & -> & Hb & _ & Hflags & Hrepo & _
                      & Hdigest)|[Hall _]].
  - apply in_app_or in Hin as [Hin|[[= <-]|[]]];
      [now apply not_exec_not_in in Hin|].
    split; [exact Hflags|]. split; [exact Hdigest|].
    destruct Hflags as (_ & _ & Htags & _ & _ & _ & _ & _ & _ & _ & _
                        & Htags' & Hr & Hreg & _).
    rewrite Hrepo, Hreg, Hr, Htags, Htags'. auto.
  - now apply not_exec_not_in in Hin.
Qed.



(** ** run: a provisioning step that fails ends the run *)

Lemma func_bind_inl {R A} (m : Proc R A) (k : A -> Proc R R)
      (w w' : World) (r : R) :
  m w = (w', inl r) -> func (bind m k) w = (w', r).
Proof. intros H. unfold func, bind. now rewrite H. Qed.

Lemma func_bind_inr {R A} (m : Proc R A) (k : A -> Proc R R)
      (w w' : World) (a : A) :
  m w = (w', inr a) -> func (bind m k) w = func (k a) w'.
Proof. intros H. unfold func, bind. now rewrite H. Qed.

Lemma guarded_call_eval {R} (g : bool) (f : World -> World * error)
      (mk : error -> R) (w : World) :
  when g (let* err := call f in if_err err (fun _ => return_ (mk err))) w
  = if g
    then match (f w).2 with
         | Some e => ((f w).1, inl (mk (Some e)))
         | None => ((f w).1, inr tt)
         end
    else (w, inr tt).
Proof.
  destruct g; [|reflexivity]. unfold when, bind, call.
  destruct (f w) as [w1 [e|]]; reflexivity.
Qed.

(** X11. When the credential provisioner is due and fails, the run ends
    there: it returns the error of setupECRAuth as it is, in the world
    setupECRAuth left, and asks nothing more of the outside; no
    repository is created, no policy is read and the builder is not
    invoked. *)
Theorem run_stops_when_auth_fails :
  forall (X : Externals) (c : cli.Context) (w : World) (e : goerror),
    negb (cli.no_push c) || negb (String.eqb (cli.access_key c) "") = true ->
    (setupECRAuth X (cli.access_key c) (cli.secret_key c) (cli.registry c)
                  w).2 = Some e ->
    run X c w
    = ((setupECRAuth X (cli.access_key c) (cli.secret_key c)
                     (cli.registry c) w).1,
       Returned (Some e)).
Proof.
  intros X c w e Hg Hfail. unfold run. cbv zeta.
  apply func_bind_inl. rewrite guarded_call_eval, Hg, Hfail. reflexivity.
Qed.

Lemma run_stops_when_auth_fails_witness :
  run Sample.readOnly
      (Sample.ctx Sample.privateRegistry false true "" "" None None)
      Sample.emptyWorld
  = ({| env := ∅; files := ∅;
        trace := [EvWriteFile "/kaniko/.docker/config.json"
                    (credHelperDescriptor
                       ["public.ecr.aws"; Sample.privateRegistry]) 420] |},
     Returned
       (Some (Wrapped "failed to create docker config file"
          (ErrorString
             "open /kaniko/.docker/config.json: read-only file system")))).
Proof.
  rewrite (run_stops_when_auth_fails
             Sample.readOnly
             (Sample.ctx Sample.privateRegistry false true "" "" None None)
             Sample.emptyWorld
             (Wrapped "failed to create docker config file"
                (ErrorString
                   "open /kaniko/.docker/config.json: read-only file system"))
             eq_refl eq_refl).
  reflexivity.
Defined.

(** X12. When the repository provisioner is due and fails, after a
    credential provisioner that was left out or has succeeded, the run
    ends there: it returns the error of createRepository as it is, in the
    world createRepository left; no policy is read and the builder is not
    invoked. *)
Theorem run_stops_when_create_fails :
  forall (X : Externals) (c : cli.Context) (w : World) (e : goerror),
    let auth :=
      setupECRAuth X (cli.access_key c) (cli.secret_key c) (cli.registry c)
                   w in
    let w1 :=
      if negb (cli.no_push c) || negb (String.eqb (cli.access_key c) "")
      then auth.1 else w in
    (negb (cli.no_push c) || negb (String.eqb (cli.access_key c) "") = true ->
     auth.2 = None) ->
    negb (cli.no_push c) && cli.create_repository c = true ->
    (createRepository X (cli.region c) (cli.repo c) (cli.registry c) w1).2
    = Some e ->
    run X c w
    = ((createRepository X (cli.region c) (cli.repo c) (cli.registry c) w1).1,
       Returned (Some e)).
Proof.
  intros X c w e auth w1 Hauth Hg Hfail. subst auth w1. unfold run. cbv zeta.
  erewrite func_bind_inr.
  - apply func_bind_inl. rewrite guarded_call_eval, Hg, Hfail. reflexivity.
  - rewrite guarded_call_eval.
    destruct (negb (cli.no_push c) || negb (String.eqb (cli.access_key c) ""));
      [|reflexivity].
    now rewrite (Hauth eq_refl).
Qed.

Lemma run_stops_when_create_fails_witness :
  (run Failing.config
       (Sample.ctx Sample.privateRegistry false true "" "" None None)
       Sample.emptyWorld).2
  = Returned (Some (Wrapped "failed to load aws config"
                      (ErrorString "failed to load shared config file")))
  /\ forall p,
      ~ In (EvExec p)
           (trace (run Failing.config
                       (Sample.ctx Sample.privateRegistry false true "" ""
                                   None None)
                       Sample.emptyWorld).1).
Proof.
  rewrite (run_stops_when_create_fails
             Failing.config
             (Sample.ctx Sample.privateRegistry false true "" "" None None)
             Sample.emptyWorld
             (Wrapped "failed to load aws config"
                (ErrorString "failed to load shared config file"))
             (fun _ => eq_refl) eq_refl eq_refl).
  split; [reflexivity|].
  intros p [Hin|[Hin|[]]]; discriminate Hin.
Defined.

Lemma func_call_return {R A} (f : World -> World * A) (mk : A -> R)
      (w : World) :
  func (let* a := call f in return_ (mk a)) w = ((f w).1, mk (f w).2).
Proof. unfold func, bind, call, return_. now destruct (f w). Qed.

Lemma plugin_Exec_trace (X : Externals) (p : kaniko.Plugin) (w : World) :
  trace (plugin_Exec X p w).1 = trace w ++ [EvExec p].
Proof.
  unfold plugin_Exec. now destruct (Exec_result X w p) as [[env' files'] err].
Qed.

(** X13. With push suppressed, no access key and no policy flag there is
    nothing to provision: the run asks one thing of the outside, the
    invocation of the builder, and returns the builder's error as it is.
    No environment variable is set, no file is written or read and no AWS
    request is made by the run. *)
Theorem run_build_only :
  forall (X : Externals) (c : cli.Context) (w : World),
    cli.no_push c = true -> cli.access_key c = "" ->
    cli.lifecycle_policy c = None -> cli.repository_policy c = None ->
    exists p,
      run X c w = ((plugin_Exec X p w).1, Returned (plugin_Exec X p w).2)
      /\ trace (run X c w).1 = trace w ++ [EvExec p]
      /\ carriesFlags c p
      /\ kaniko.NoPush (kaniko.build p) = true.
Proof.
  intros X c w Hnp Hak Hlife Hrepo. unfold run. cbv zeta.
  rewrite Hnp, Hak, Hlife, Hrepo.
  change (negb true || negb (String.eqb "" "")) with false.
  change (negb true && cli.create_repository c) with false.
  eexists. split; [|split; [|split]].
  - do 4 (erewrite func_bind_inr by reflexivity). apply func_call_return.
  - do 4 (erewrite func_bind_inr by reflexivity).
    rewrite func_call_return. apply plugin_Exec_trace.
  - rewrite <- Hnp. repeat split.
  - reflexivity.
Qed.

Lemma run_build_only_witness :
  (exists p,
      trace (run Failing.build
                 (Sample.ctx Sample.privateRegistry true true "" "" None None)
                 Sample.emptyWorld).1
      = [EvExec p])
  /\ (run Failing.build
          (Sample.ctx Sample.privateRegistry true true "" "" None None)
          Sample.emptyWorld).2
     = Returned (Some (ExitCoder 1 "exit status 1")).
Proof.
  destruct (run_build_only
              Failing.build
              (Sample.ctx Sample.privateRegistry true true "" "" None None)
              Sample.emptyWorld eq_refl eq_refl eq_refl eq_refl)
    as (p & Hrun & Htr & _).
  split; [exists p; exact Htr|].
  rewrite Hrun. reflexivity.
Defined.

(** ** isRegistryPublic: paths and short names *)

(** X14. A registry classified public stays public whatever is appended
    to it, so a public registry with an alias or a path after the domain
    is public too; and a registry of fewer than fourteen bytes, the
    length of the domain, is private. *)
Theorem isRegistryPublic_extends :
  (forall registry rest : string,
      isRegistryPublic registry = true ->
      isRegistryPublic (registry +:+ rest) = true)
  /\ (forall registry : string,
         (String.length registry < 14)%nat ->
         isRegistryPublic registry = false).
Proof.
  split.
  - intros registry rest H. unfold isRegistryPublic in *.
    apply HasPrefix_spec in H as [t ->]. apply HasPrefix_spec.
    exists (t +:+ rest). apply string_app_assoc.
  - intros registry Hlen. unfold isRegistryPublic, Strings.HasPrefix.
    change (String.length ecrPublicDomain) with 14%nat.
    apply andb_false_iff. left. apply Nat.leb_gt. exact Hlen.
Qed.

Lemma isRegistryPublic_extends_witness :
  isRegistryPublic "public.ecr.aws" = true
  /\ isRegistryPublic ("public.ecr.aws" +:+ "/acme/app") = true
  /\ (String.length "ecr.aws" < 14)%nat
  /\ isRegistryPublic "ecr.aws" = false.
Proof.
  assert (H : isRegistryPublic "public.ecr.aws" = true) by reflexivity.
  assert (Hlen : (String.length "ecr.aws" < 14)%nat) by (cbn; lia).
  split; [exact H|]. split.
  - exact (proj1 isRegistryPublic_extends "public.ecr.aws" "/acme/app" H).
  - split; [exact Hlen|].
    exact (proj2 isRegistryPublic_extends "ecr.aws" Hlen).
Defined.

(** ** main: the environment file and the exit status *)

Lemma main_unfold (X : Externals) (S : Startup) (w : World) :
  main X S w
  = let env := os_Getenv "PLUGIN_ENV_FILE" w in
    let '(w1, loaded) :=
      if String.eqb env "" then (w, None) else godotenv_Load S env w in
    match loaded with
    | Some e => (w1, Exited 1 (Error e))
    | None =>
        match app_Run X S w1 with
        | (w2, Exited status msg) => (w2, Exited status msg)
        | (w2, Returned (Some e)) => (w2, Exited 1 (Error e))
        | (w2, Returned None) => (w2, Returned None)
        end
    end.
Proof.
  unfold main. unproc. cbv zeta.
  destruct (String.eqb (os_Getenv "PLUGIN_ENV_FILE" w) ""); cbn [negb].
  - destruct (app_Run X S w) as [w2 [[e|]|status msg]]; reflexivity.
  - destruct (godotenv_Load S _ w) as [w1 [e|]]; [reflexivity|].
    destruct (app_Run X S w1) as [w2 [[e|]|status msg]]; reflexivity.
Qed.

Lemma os_Getenv_unset (key : string) (w : World) :
  env w !! key = None \/ env w !! key = Some "" -> os_Getenv key w = "".
Proof. unfold os_Getenv. now intros [->| ->]. Qed.

Lemma os_Getenv_set (key value : string) (w : World) :
  env w !! key = Some value -> os_Getenv key w = value.
Proof. unfold os_Getenv. now intros ->. Qed.

(** X15. main loads an environment file only when PLUGIN_ENV_FILE is set
    to a name that is not empty: with the variable unset or empty, what
    loading a file would do is of no account.  When the variable names a
    file that cannot be loaded, main exits with status 1 and the text of
    that error before the command line is parsed: the files are as they
    were and nothing has been asked of the outside. *)
Theorem main_env_file :
  (forall (X : Externals) (S S' : Startup) (w : World),
      env w !! "PLUGIN_ENV_FILE" = None
      \/ env w !! "PLUGIN_ENV_FILE" = Some "" ->
      Parse_result S = Parse_result S' ->
      main X S w = main X S' w)
  /\ (forall (X : Externals) (S : Startup) (w : World) (name : string)
             (e : goerror),
         env w !! "PLUGIN_ENV_FILE" = Some name -> name <> "" ->
         (Load_result S w name).2 = Some e ->
         main X S w
         = ({| env := (Load_result S w name).1; files := files w;
               trace := trace w |},
            Exited 1 (Error e))).
Proof.
  split.
  - intros X S S' w Hunset Hparse.
    rewrite !main_unfold. cbv zeta.
    rewrite (os_Getenv_unset _ _ Hunset). cbn [String.eqb].
    unfold app_Run. now rewrite Hparse.
  - intros X S w name e Hset Hname Hfail.
    rewrite main_unfold. cbv zeta.
    rewrite (os_Getenv_set _ _ _ Hset).
    rewrite (eqb_empty_false _ Hname). unfold godotenv_Load.
    destruct (Load_result S w name) as [env' err]. cbn [fst snd] in *.
    now rewrite Hfail.
Qed.

Lemma main_env_file_witness :
  ({["PLUGIN_ENV_FILE" := "/run/drone/env"]} : gmap string string)
  !! "PLUGIN_ENV_FILE" = Some "/run/drone/env"
  /\ "/run/drone/env" <> ""
  /\ main Sample.quiet
          (Failing.envFile
             (Sample.ctx Sample.privateRegistry false true "" "" None None))
          {| env := {["PLUGIN_ENV_FILE" := "/run/drone/env"]};
             files := ∅; trace := [] |}
     = ({| env := {["PLUGIN_ENV_FILE" := "/run/drone/env"]};
           files := ∅; trace := [] |},
        Exited 1 "open /run/drone/env: no such file or directory").
Proof.
  assert (Hset : ({["PLUGIN_ENV_FILE" := "/run/drone/env"]}
                  : gmap string string)
                 !! "PLUGIN_ENV_FILE" = Some "/run/drone/env")
    by reflexivity.
  assert (Hname : "/run/drone/env" <> "") by discriminate.
  split; [exact Hset|]. split; [exact Hname|].
  exact (proj2 main_env_file Sample.quiet
               (Failing.envFile
                  (Sample.ctx Sample.privateRegistry false true "" ""
                              None None))
               {| env := {["PLUGIN_ENV_FILE" := "/run/drone/env"]};
                  files := ∅; trace := [] |}
               "/run/drone/env"
               (ErrorString "open /run/drone/env: no such file or directory")
               Hset Hname eq_refl).
Defined.



(** ** run: everything it can ask, in order *)

(** What a step emits comes before what the steps after it emit. *)
Lemma Emits_seq {R A B} (G1 G2 : list Event -> Prop)
      (m : Proc R A) (k : A -> Proc R B) :
  G2 [] -> Emits G1 m -> (forall a, Emits G2 (k a)) ->
  Emits (fun evs =>
           exists evs1 evs2, evs = evs1 ++ evs2 /\ G1 evs1 /\ G2 evs2)
        (bind m k).
Proof.
  intros Hnil Hm Hk w. unfold bind.
  destruct (Hm w) as (evs1 & Htr1 & Hevs1).
  destruct (m w) as [w1 [r|a]]; cbn [fst] in *.
  - exists evs1. split; [exact Htr1|].
    exists evs1, []. now rewrite app_nil_r.
  - destruct (Hk a w1) as (evs2 & Htr2 & Hevs2).
    exists (evs1 ++ evs2). split.
    + rewrite Htr2, Htr1. now rewrite app_assoc.
    + exists evs1, evs2. auto.
Qed.

Section Grammar.

Context (X : Externals).

Lemma setupECRAuth_requests (accessKey secretKey registry : string) :
  Emits (fun evs =>
           evs `prefix_of`
             [EvSetenv accessKeyEnv accessKey;
              EvSetenv secretKeyEnv secretKey;
              EvWriteFile dockerConfigPath
                (credHelperDescriptor [ecrPublicDomain; registry]) 420]
           \/ evs = [EvWriteFile dockerConfigPath
                       (credHelperDescriptor [ecrPublicDomain; registry])
                       420])
        (setupECRAuth X accessKey secretKey registry).
Proof.
  intros w. destruct (String.eqb_spec registry "") as [->|Hreg].
  - exists []. split; [now rewrite app_nil_r|]. left. apply prefix_nil.
  - rewrite (setupECRAuth_unfold X _ _ _ w Hreg).
    setup_cases X accessKey secretKey w.
    all: rewrite <- ?app_assoc; eexists; (split; [reflexivity|]);
      cbn [app]; first [now right | left].
    + now exists [EvSetenv secretKeyEnv secretKey;
                  EvWriteFile dockerConfigPath
                    (credHelperDescriptor [ecrPublicDomain; registry]) 420].
    + now exists [EvWriteFile dockerConfigPath
                    (credHelperDescriptor [ecrPublicDomain; registry]) 420].
    + now exists [].
    + now exists [].
Qed.

Lemma createRepository_requests (region repo registry : string) :
  Emits (fun evs =>
           evs `prefix_of`
             [EvLoadDefaultConfig region;
              EvAPI (clientFor registry {| Region := region |})
                    (CreateRepositoryInput repo)])
        (createRepository X region repo registry).
Proof.
  intros w. destruct (String.eqb_spec registry "") as [->|Hreg].
  { exists []. split; [now rewrite app_nil_r|]. apply prefix_nil. }
  destruct (String.eqb_spec repo "") as [->|Hrepo].
  { rewrite (createRepository_empty_repo X region registry w Hreg).
    exists []. split; [now rewrite app_nil_r|]. apply prefix_nil. }
  rewrite (createRepository_unfold X _ _ _ w Hreg Hrepo).
  destruct (LoadDefaultConfig_err X w region) as [e|]; unfold log;
    cbn [fst trace]; rewrite <- ?app_assoc; eexists;
    (split; [reflexivity|]); cbn [app].
  - now eexists [_].
  - now exists [].
Qed.

Lemma uploadLifeCyclePolicy_requests (region repo text : string) :
  Emits (fun evs =>
           evs `prefix_of`
             [EvLoadDefaultConfig region;
              EvAPI (ecr_Client {| Region := region |})
                    (PutLifecyclePolicyInput text repo)])
        (uploadLifeCyclePolicy X region repo text).
Proof.
  intros w. rewrite uploadLifeCyclePolicy_unfold.
  destruct (LoadDefaultConfig_err X w region) as [e|]; unfold log;
    cbn [fst trace]; rewrite <- ?app_assoc; eexists;
    (split; [reflexivity|]); cbn [app].
  - now eexists [_].
  - now exists [].
Qed.

Lemma uploadRepositoryPolicy_requests (region repo registry text : string) :
  Emits (fun evs =>
           evs `prefix_of`
             [EvLoadDefaultConfig region;
              EvAPI (clientFor registry {| Region := region |})
                    (SetRepositoryPolicyInput text repo)])
        (uploadRepositoryPolicy X region repo registry text).
Proof.
  intros w. rewrite uploadRepositoryPolicy_unfold.
  destruct (LoadDefaultConfig_err X w region) as [e|]; unfold log;
    cbn [fst trace]; rewrite <- ?app_assoc; eexists;
    (split; [reflexivity|]); cbn [app].
  - now eexists [_].
  - now exists [].
Qed.

(** A guarded call emits what the call emits, or nothing. *)
Lemma Emits_guarded_call {R} (G : list Event -> Prop) (g : bool)
      (f : World -> World * error) (mk : error -> R) :
  G [] -> Emits G f ->
  Emits G (when g (let* err := call f in
                   if_err err (fun _ => return_ (mk err)))).
Proof.
  intros Hnil Hf w. destruct g; unfold when.
  - unfold bind, call. destruct (Hf w) as (evs & Htr & Hevs).
    destruct (f w) as [w1 [e|]]; cbn [fst snd] in *;
      exists evs; (split; [exact Htr|exact Hevs]).
  - exists []. cbn. rewrite app_nil_r. auto.
Qed.

(** A policy block emits nothing, or the read of the flagged file and
    then what the upload of its contents emits. *)
Lemma Emits_policy_block (L : string -> list Event)
      (flag : option string)
      (upload : string -> World -> World * error) (msg : goerror -> string) :
  (forall contents,
      Emits (fun evs => evs `prefix_of` L contents) (upload contents)) ->
  Emits (fun evs =>
           evs = []
           \/ exists path contents err,
               flag = Some path
               /\ evs `prefix_of` (EvReadFile path contents err :: L contents)
               /\ (err <> None -> evs = [EvReadFile path contents err]))
        (if_set flag (fun path =>
           let* (contents, err) := call (ioutil_ReadFile X path) in
           if_err err (fun e => logrus_Fatal (Error e)) ;;
           let* err := call (upload contents) in
           if_err err (fun e => logrus_Fatal (msg e)))).
Proof.
  intros Hup w. destruct flag as [path|]; unfold if_set.
  - destruct (ioutil_ReadFile_result X path w) as (contents & err & Hread).
    unfold bind, call, if_err, logrus_Fatal, return_, ret.
    rewrite Hread. cbv beta iota.
    destruct err as [e|]; cbv beta iota.
    + eexists. split; [reflexivity|]. right.
      exists path, contents, (Some e). split; [reflexivity|].
      split; [|reflexivity]. now exists (L contents).
    + destruct (Hup contents (log (EvReadFile path contents None) w))
        as (evs & Htr & Hevs).
      exists (EvReadFile path contents None :: evs). split.
      * destruct (upload contents _) as [w1 [e|]]; cbn [fst] in *;
          rewrite Htr; unfold log; cbn [trace]; now rewrite <- app_assoc.
      * right. exists path, contents, None. split; [reflexivity|].
        split; [now apply prefix_cons|congruence].
  - exists []. cbn. rewrite app_nil_r. auto.
Qed.

End Grammar.

(** X17. Everything a run can ask of the outside, in the order it asks:
    an initial part of the two exports and the descriptor write (or that
    write alone); then an initial part of the configuration load and the
    create-repository request; then, for the lifecycle policy and after
    it for the repository policy, nothing or an initial part of the read
    of the flagged file, a configuration load and the upload of the
    contents read, the read alone if it failed; and last at most one
    invocation of the builder.  So each of these requests is made at most
    once in a run. *)
Theorem run_requests_in_order :
  forall (X : Externals) (c : cli.Context) (w : World),
    let cfg := {| Region := cli.region c |} in
    exists auth create lifecycle repository build,
      trace (run X c w).1
      = trace w ++ auth ++ create ++ lifecycle ++ repository ++ build
      /\ (auth `prefix_of`
            [EvSetenv "AWS_ACCESS_KEY_ID" (cli.access_key c);
             EvSetenv "AWS_SECRET_ACCESS_KEY" (cli.secret_key c);
             EvWriteFile "/kaniko/.docker/config.json"
               (credHelperDescriptor ["public.ecr.aws"; cli.registry c]) 420]
          \/ auth = [EvWriteFile "/kaniko/.docker/config.json"
                       (credHelperDescriptor
                          ["public.ecr.aws"; cli.registry c]) 420])
      /\ create `prefix_of`
           [EvLoadDefaultConfig (cli.region c);
            EvAPI (clientFor (cli.registry c) cfg)
                  (CreateRepositoryInput (cli.repo c))]
      /\ (lifecycle = []
          \/ exists path contents err,
              cli.lifecycle_policy c = Some path
              /\ lifecycle `prefix_of`
                   [EvReadFile path contents err;
                    EvLoadDefaultConfig (cli.region c);
                    EvAPI (ecr_Client cfg)
                          (PutLifecyclePolicyInput contents (cli.repo c))]
              /\ (err <> None -> lifecycle = [EvReadFile path contents err]))
      /\ (repository = []
          \/ exists path contents err,
              cli.repository_policy c = Some path
              /\ repository `prefix_of`
                   [EvReadFile path contents err;
                    EvLoadDefaultConfig (cli.region c);
                    EvAPI (clientFor (cli.registry c) cfg)
                          (SetRepositoryPolicyInput contents (cli.repo c))]
              /\ (err <> None -> repository = [EvReadFile path contents err]))
      /\ (build = [] \/ exists p, build = [EvExec p]).
Proof.
  intros X c w cfg.
  pose (Gauth := fun auth : list Event =>
          auth `prefix_of`
            [EvSetenv "AWS_ACCESS_KEY_ID" (cli.access_key c);
             EvSetenv "AWS_SECRET_ACCESS_KEY" (cli.secret_key c);
             EvWriteFile "/kaniko/.docker/config.json"
               (credHelperDescriptor ["public.ecr.aws"; cli.registry c]) 420]
          \/ auth = [EvWriteFile "/kaniko/.docker/config.json"
                       (credHelperDescriptor
                          ["public.ecr.aws"; cli.registry c]) 420]).
  pose (Gcreate := fun create : list Event =>
          create `prefix_of`
            [EvLoadDefaultConfig (cli.region c);
             EvAPI (clientFor (cli.registry c) cfg)
                   (CreateRepositoryInput (cli.repo c))]).
  pose (Gpolicy := fun (flag : option string) (L : string -> list Event)
                       (evs : list Event) =>
          evs = []
          \/ exists path contents err,
              flag = Some path
              /\ evs `prefix_of` (EvReadFile path contents err :: L contents)
              /\ (err <> None -> evs = [EvReadFile path contents err])).
  pose (Llife := fun contents =>
          [EvLoadDefaultConfig (cli.region c);
           EvAPI (ecr_Client cfg)
                 (PutLifecyclePolicyInput contents (cli.repo c))]).
  pose (Lrepo := fun contents =>
          [EvLoadDefaultConfig (cli.region c);
           EvAPI (clientFor (cli.registry c) cfg)
                 (SetRepositoryPolicyInput contents (cli.repo c))]).
  pose (Gbuild := fun evs : list Event =>
                    evs = [] \/ exists p : kaniko.Plugin, evs = [EvExec p]).
  assert (H : Emits
                (fun evs =>
                   exists auth r1, evs = auth ++ r1
                   /\ Gauth auth
                   /\ exists create r2, r1 = create ++ r2
                   /\ Gcreate create
                   /\ exists lifecycle r3, r2 = lifecycle ++ r3
                   /\ Gpolicy (cli.lifecycle_policy c) Llife lifecycle
                   /\ exists repository build, r3 = repository ++ build
                   /\ Gpolicy (cli.repository_policy c) Lrepo repository
                   /\ Gbuild build)
                (run X c)).
  { unfold run. cbv zeta. apply Emits_func.
    apply Emits_seq with (G1 := Gauth);
      [|apply Emits_guarded_call;
        [left; apply prefix_nil|apply setupECRAuth_requests]|intros _].
    2: apply Emits_seq with (G1 := Gcreate);
      [|apply Emits_guarded_call;
        [apply prefix_nil|apply createRepository_requests]|intros _].
    3: apply Emits_seq with (G1 := Gpolicy (cli.lifecycle_policy c) Llife);
      [|apply Emits_policy_block with (L := Llife);
        intros; apply uploadLifeCyclePolicy_requests|intros _].
    4: apply Emits_seq
         with (G1 := Gpolicy (cli.repository_policy c) Lrepo) (G2 := Gbuild);
      [now left
      |apply Emits_policy_block with (L := Lrepo);
       intros; apply uploadRepositoryPolicy_requests|intros _].
    4: { intros w0. unfold bind, call, return_.
         match goal with
         | |- context [plugin_Exec X ?p w0] =>
             pose proof (plugin_Exec_trace X p w0) as Htr;
             destruct (plugin_Exec X p w0) as [w1 err];
             exists [EvExec p]
         end.
         split; [exact Htr|]. right. eauto. }
    all: repeat (exists [], []; split; [reflexivity|];
                 split; [first [now left | apply prefix_nil]|]).
    all: try now left. }
  destruct (H w) as (evs & Htr & auth & r1 & -> & Ha & create & r2 & -> & Hc
                     & lifecycle & r3 & -> & Hl & repository & build & ->
                     & Hr & Hb).
  exists auth, create, lifecycle, repository, build.
  split; [exact Htr|]. auto 10.
Qed.
